(** * bib_to_html: a BibTeX-to-HTML reference list converter

    Shallow embedding of [random_stuff/bib_to_html.py] and the properties
    of its three functions [get_author_string], [format_bibtex_entry] and
    [convert_bib_to_html].

    - A Python [str] is a sequence of Unicode code points: [list N].
    - A record (one parsed BibTeX entry) is a Python [dict] from field name
      to field value: [gmap (list N) (list N)].
    - Code that reads the record runs in a small state-and-exception monad
      [Py] whose state is the record itself, so that "the record is not
      mutated" is a statement about the final state.
    - A Python exception is a value of [exn]; a computation that can raise
      returns a [result].
    - [convert_bib_to_html] acts on a [World] (the console and the files);
      what the parser returns and which I/O operations fail is given by an
      [Env]. *)

From Stdlib Require Import NArith List Ascii String Decimal Lia.
From stdpp Require Import base option list gmap.

Open Scope N_scope.
Open Scope list_scope.

(** ** Python strings *)

Module PyStr.

Abbreviation pystr := (list N).

(** An ASCII literal of the source as a sequence of code points. *)
Definition u (s : string) : pystr :=
  List.map N_of_ascii (list_ascii_of_string s).

Definition nl : pystr := [10].        (* "\n" *)
Definition dq : pystr := [34].        (* the double-quote character *)
Definition en_dash : pystr := [8211]. (* U+2013 *)

(** [str.isspace] for one code point, the set used by [str.strip()] and
    [str.split()] without arguments (CPython's [_PyUnicode_IsWhitespace]). *)
Definition isspace (c : N) : bool :=
  ((9 <=? c) && (c <=? 13)) || ((28 <=? c) && (c <=? 31)) || (c =? 32)
  || (c =? 133) || (c =? 160) || (c =? 5760)
  || ((8192 <=? c) && (c <=? 8202))
  || (c =? 8232) || (c =? 8233) || (c =? 8239) || (c =? 8287) || (c =? 12288).

Fixpoint lstrip (s : pystr) : pystr :=
  match s with
  | c :: s' => if isspace c then lstrip s' else s
  | [] => []
  end.

Definition rstrip (s : pystr) : pystr := rev (lstrip (rev s)).

(** [s.strip()] *)
Definition strip (s : pystr) : pystr := rstrip (lstrip s).

(** [s.startswith(p)] *)
Fixpoint startswith (p s : pystr) : bool :=
  match p, s with
  | [], _ => true
  | _ :: _, [] => false
  | a :: p', b :: s' => (a =? b) && startswith p' s'
  end.

(** [s.endswith(p)] *)
Definition endswith (p s : pystr) : bool := startswith (rev p) (rev s).

(** [sub in s] *)
Fixpoint contains_str (sub s : pystr) : bool :=
  startswith sub s ||
  match s with
  | [] => false
  | _ :: s' => contains_str sub s'
  end.

(** [s.split(sep)] for a non-empty [sep]: left to right, occurrences do
    not overlap. [skip] counts the characters of a matched separator that
    are still to be passed over. The result is never empty. *)
Fixpoint split_go (sep : pystr) (skip : nat) (s : pystr) : list pystr :=
  match s with
  | [] => [[]]
  | c :: s' =>
      match skip with
      | S k => split_go sep k s'
      | O =>
          if startswith sep s
          then [] :: split_go sep (Nat.pred (List.length sep)) s'
          else match split_go sep 0 s' with
               | p :: ps => (c :: p) :: ps
               | [] => [[c]]
               end
      end
  end.

Definition split (sep s : pystr) : list pystr := split_go sep 0 s.

(** [s.split()]: the maximal runs of non-whitespace characters. [cur]
    holds the run being read, reversed. *)
Fixpoint split_ws_go (cur : pystr) (s : pystr) : list pystr :=
  match s with
  | [] => match cur with [] => [] | _ :: _ => [rev cur] end
  | c :: s' =>
      if isspace c
      then match cur with
           | [] => split_ws_go [] s'
           | _ :: _ => rev cur :: split_ws_go [] s'
           end
      else split_ws_go (c :: cur) s'
  end.

Definition split_ws (s : pystr) : list pystr := split_ws_go [] s.

(** [s.replace(old, new)] for a non-empty [old]. *)
Fixpoint replace_go (old new : pystr) (skip : nat) (s : pystr) : pystr :=
  match s with
  | [] => []
  | c :: s' =>
      match skip with
      | S k => replace_go old new k s'
      | O =>
          if startswith old s
          then new ++ replace_go old new (Nat.pred (List.length old)) s'
          else c :: replace_go old new 0 s'
      end
  end.

Definition replace (old new s : pystr) : pystr := replace_go old new 0 s.

(** [sep.join(l)] *)
Fixpoint join (sep : pystr) (l : list pystr) : pystr :=
  match l with
  | [] => []
  | [x] => x
  | x :: r => x ++ sep ++ join sep r
  end.

(** [str(n)] for a non-negative integer. *)
Fixpoint digits (d : Decimal.uint) : pystr :=
  match d with
  | Nil => []
  | D0 r => 48 :: digits r
  | D1 r => 49 :: digits r
  | D2 r => 50 :: digits r
  | D3 r => 51 :: digits r
  | D4 r => 52 :: digits r
  | D5 r => 53 :: digits r
  | D6 r => 54 :: digits r
  | D7 r => 55 :: digits r
  | D8 r => 56 :: digits r
  | D9 r => 57 :: digits r
  end.

Definition str (n : nat) : pystr := digits (Nat.to_uint n).

(** [a < b] on strings: lexicographic on code points. *)
Fixpoint str_lt (a b : pystr) : bool :=
  match a, b with
  | _, [] => false
  | [], _ :: _ => true
  | x :: a', y :: b' => (x <? y) || ((x =? y) && str_lt a' b')
  end.

(** [str.lower] on the ASCII letters; every other code point is kept.
    Python's [lower] agrees with it on ASCII strings. The general
    development takes [lower] as a parameter and uses this instance only
    on concrete ASCII inputs. *)
Definition ascii_lower (s : pystr) : pystr :=
  List.map (fun c => if (65 <=? c) && (c <=? 90) then c + 32 else c) s.

End PyStr.

Import PyStr.

(** ** Exceptions and the record-state monad *)

Inductive exn : Type :=
| IndexError
| KeyError (k : pystr).

Inductive result (A : Type) : Type :=
| Ok (a : A)
| Raise (e : exn).

Arguments Ok {A} a.
Arguments Raise {A} e.

Abbreviation entry := (gmap (list N) (list N)).

(** A computation over one record: it receives the record, and yields the
    record as it leaves it together with a value or a raised exception. *)
Definition Py (A : Type) : Type := entry -> entry * result A.

Definition ret {A} (a : A) : Py A := fun d => (d, Ok a).

Definition bind {A B} (m : Py A) (k : A -> Py B) : Py B :=
  fun d =>
    match m d with
    | (d', Ok a) => k a d'
    | (d', Raise e) => (d', Raise e)
    end.

Definition lift {A} (r : result A) : Py A := fun d => (d, r).

Declare Scope py_scope.
Delimit Scope py_scope with py.
Notation "'let*' x ':=' m 'in' k" := (bind m (fun x => k))
  (at level 10, x name, m at level 100, k at level 200) : py_scope.

(** The dict operations. *)

(** [k in entry] *)
Definition contains (k : pystr) : Py bool :=
  fun d => (d, Ok (match d !! k with Some _ => true | None => false end)).

(** [entry.get(k, dflt)] *)
Definition get (k dflt : pystr) : Py pystr :=
  fun d => (d, Ok (match d !! k with Some v => v | None => dflt end)).

(** [entry[k]] *)
Definition getitem (k : pystr) : Py pystr :=
  fun d => (d, match d !! k with Some v => Ok v | None => Raise (KeyError k) end).

(** [entry[k] = v]. The program never uses it; it is here to show what a
    write is in this monad (see [setitem_writes]). *)
Definition setitem (k v : pystr) : Py unit :=
  fun d => (<[k:=v]> d, Ok tt).

(** The value a computation returns on a record. *)
Definition eval {A} (m : Py A) (d : entry) : result A := snd (m d).

(** List indexing. *)

(** [l[0]] *)
Definition index0 {A} (l : list A) : result A :=
  match l with
  | x :: _ => Ok x
  | [] => Raise IndexError
  end.

(** [l[-1]] *)
Definition index_last {A} (l : list A) : result A :=
  match last l with
  | Some x => Ok x
  | None => Raise IndexError
  end.

(** ** get_author_string *)

(** The body of the [for author in authors] loop: the surname of one
    author. *)
Definition author_last (author : pystr) : result pystr :=
  let author := strip author in
  if contains_str (u ",") author
  then
    let parts := List.map strip (split (u ",") author) in
    index0 parts
  else
    let parts := split_ws author in
    index_last parts.

(** The loop, [formatted_authors] being the list appended to. *)
Fixpoint author_loop (authors formatted_authors : list pystr)
  : result (list pystr) :=
  match authors with
  | [] => Ok formatted_authors
  | author :: rest =>
      match author_last author with
      | Ok last => author_loop rest (formatted_authors ++ [last])
      | Raise e => Raise e
      end
  end.

Open Scope py_scope.

Definition get_author_string : Py pystr :=
  let* has_author := contains (u "author") in
  if has_author : bool then
    let* field := getitem (u "author") in
    let authors := split (u " and ") field in
    let* formatted_authors := lift (author_loop authors []) in
    if (1 <? List.length formatted_authors)%nat then
      let* final := lift (index_last formatted_authors) in
      ret (join (u ", ") (removelast formatted_authors) ++ u " & " ++ final)
    else
      match formatted_authors with
      | _ :: _ => lift (index0 formatted_authors)
      | [] => ret []
      end
  else ret [].

(** ** format_bibtex_entry *)

(** Lines 70-76: the link of the title. *)
Definition resolve_link : Py pystr :=
  let* doi_or_hash := get (u "doi") (u "#") in
  let* link := get (u "url") doi_or_hash in
  if negb (bool_decide (link = u "#"))
     && negb (startswith (u "http") link || startswith (u "ftp") link)
  then
    let* has_doi := contains (u "doi") in
    if has_doi : bool then
      let* doi := getitem (u "doi") in
      ret (u "https://doi.org/" ++ doi)
    else ret (u "#")
  else ret link.

(** Lines 80-83: the custom note. *)
Definition resolve_note : Py pystr :=
  let* note1 := get (u "note") [] in
  if startswith (u "(") note1 then
    let* note2 := get (u "note") [] in
    if endswith (u ")") note2 then
      let* note := getitem (u "note") in
      ret (strip note)
    else ret []
  else ret [].

(** Lines 90-95. *)
Definition resolve_container : Py pystr :=
  let* has_journal := contains (u "journal") in
  if has_journal : bool then
    let* v := getitem (u "journal") in
    ret (u "<em>" ++ v ++ u "</em>")
  else
    let* has_booktitle := contains (u "booktitle") in
    if has_booktitle : bool then
      let* v := getitem (u "booktitle") in
      ret (u "<em>In " ++ v ++ u "</em>")
    else
      let* has_publisher := contains (u "publisher") in
      if has_publisher : bool then
        let* v := getitem (u "publisher") in
        ret (u "<em>" ++ v ++ u "</em>")
      else ret [].

(** Lines 97-98. *)
Definition resolve_volume : Py pystr :=
  let* has_volume := contains (u "volume") in
  if has_volume : bool then
    let* v := getitem (u "volume") in
    ret (u ", Vol. " ++ v)
  else ret [].

(** Lines 100-102. *)
Definition resolve_pages : Py pystr :=
  let* has_pages := contains (u "pages") in
  if has_pages : bool then
    let* v := getitem (u "pages") in
    let pages_val := replace (u "--") en_dash v in
    ret (u ", pp. " ++ pages_val)
  else ret [].

(** Lines 105-109: the f-string that starts the fragment. *)
Definition html_head (author_str year link title : pystr) : pystr :=
  nl ++ u "<li>" ++ nl ++ u "<p>" ++ author_str ++ u " (" ++ year ++ u ")."
  ++ nl ++ u "<br>" ++ nl ++ u "<a href=" ++ dq ++ link ++ dq
  ++ u " class=" ++ dq ++ u "external" ++ dq ++ u ">" ++ title ++ u "</a>".

(** Line 118: one more link. *)
Definition html_link (url url_note : pystr) : pystr :=
  u " <a href=" ++ dq ++ url ++ dq ++ u " class=" ++ dq ++ u "external" ++ dq
  ++ u ">[" ++ url_note ++ u "]</a>".

(** Lines 111-118: [for a in range(2,31)], [indices] being the values of
    [a] still to come; [break] returns the fragment built so far. *)
Fixpoint links_loop (indices : list nat) (html : pystr) : Py pystr :=
  match indices with
  | [] => ret html
  | a :: rest =>
      let* has_url := contains (u "url_" ++ str a) in
      if negb has_url then ret html
      else
        let* has_note := contains (u "url_note_" ++ str a) in
        let* url_note := (if negb has_note then ret (u "link " ++ str a)
                         else getitem (u "url_note_" ++ str a)) in
        let* url := getitem (u "url_" ++ str a) in
        links_loop rest (html ++ html_link url url_note)
  end.

(** [range(2,31)] *)
Definition range_2_31 : list nat := seq 2 29.

(** Python truth of a string: it is not empty. *)
Definition truthy (s : pystr) : bool :=
  match s with [] => false | _ :: _ => true end.

Definition format_bibtex_entry : Py pystr :=
  let* title := get (u "title") (u "Unknown title") in
  let* author_str := get_author_string in
  let* year := get (u "year") (u "n.d.") in
  let* link := resolve_link in
  let* custom_note := resolve_note in
  let* container := resolve_container in
  let* volume := resolve_volume in
  let* pages := resolve_pages in
  let html := html_head author_str year link title in
  let* html := links_loop range_2_31 html in
  let html :=
    if truthy custom_note
    then html ++ u " <strong>" ++ custom_note ++ u "</strong>."
    else html ++ u "." in
  let html :=
    if truthy container || truthy volume || truthy pages
    then html ++ u " " ++ container ++ volume ++ pages ++ u "."
    else html in
  ret (html ++ u "</p>" ++ nl ++ u "</li>").

Close Scope py_scope.

(** ** sorted(..., key=...) *)

Section Sorted.

Context {A K : Type}.
Variable lt : K -> K -> bool.

(** Python computes the key of every element first, in order; an
    exception raised by a key ends the call. *)
Fixpoint keys_of (key : A -> result K) (l : list A) : result (list K) :=
  match l with
  | [] => Ok []
  | x :: r =>
      match key x with
      | Raise e => Raise e
      | Ok k =>
          match keys_of key r with
          | Raise e => Raise e
          | Ok ks => Ok (k :: ks)
          end
      end
  end.

(** The sort is stable and compares keys with [<] only: [x], which comes
    before every element of [l] in the input, goes in front of the first
    element whose key is not smaller than its own. *)
Fixpoint insert_keyed (x : K * A) (l : list (K * A)) : list (K * A) :=
  match l with
  | [] => [x]
  | y :: r => if lt (fst y) (fst x) then y :: insert_keyed x r else x :: y :: r
  end.

Definition sort_keyed (l : list (K * A)) : list (K * A) :=
  List.fold_right insert_keyed [] l.

Definition sorted (key : A -> result K) (l : list A) : result (list A) :=
  match keys_of key l with
  | Raise e => Raise e
  | Ok ks => Ok (List.map snd (sort_keyed (List.combine ks l)))
  end.

End Sorted.

(** [<] on pairs of strings, as Python compares tuples: the first
    components that differ decide. *)
Definition pair_lt (a b : pystr * pystr) : bool :=
  if bool_decide (fst a = fst b) then str_lt (snd a) (snd b)
  else str_lt (fst a) (fst b).

(** ** convert_bib_to_html *)

Open Scope py_scope.

Section Convert.

(** [str.lower], whose Unicode case tables are not part of the program. *)
Variable lower : pystr -> pystr.

(** Line 156: the key of the first sort. *)
Definition author_sort_key : Py pystr :=
  let* field := get (u "author") [] in
  let* first := lift (index0 (split (u " and ") field)) in
  let* before_comma := lift (index0 (split (u ",") first)) in
  let* last := lift (index_last (split_ws before_comma)) in
  ret (lower last).

(** Line 160: the key of the second sort. *)
Definition year_sort_key : Py pystr := get (u "year") [].

(** Lines 154-161. The keys only read the records (see
    [author_sort_key_reads]), so the sorts move the records as they
    are. *)
Definition sort_entries (entries : list entry) : result (list entry) :=
  match sorted str_lt (eval author_sort_key) entries with
  | Raise e => Raise e
  | Ok sorted_entries_1 => sorted str_lt (eval year_sort_key) sorted_entries_1
  end.

(** Lines 164-166. *)
Fixpoint html_content_of (sorted_entries : list entry) (html_content : pystr)
  : result pystr :=
  match sorted_entries with
  | [] => Ok html_content
  | e :: rest =>
      match eval format_bibtex_entry e with
      | Raise x => Raise x
      | Ok fragment => html_content_of rest (html_content ++ fragment)
      end
  end.

(** Lines 169-190. *)
Definition full_html_of (html_content : pystr) : pystr :=
  u "<!DOCTYPE html>" ++ nl
  ++ u "<html lang=" ++ dq ++ u "it" ++ dq ++ u ">" ++ nl
  ++ u "<head>" ++ nl
  ++ u "    <meta charset=" ++ dq ++ u "UTF-8" ++ dq ++ u ">" ++ nl
  ++ u "    <title>Converted bibliography</title>" ++ nl
  ++ u "    <style>" ++ nl
  ++ u "        /* Minimal styles */" ++ nl
  ++ u "        li {" ++ nl
  ++ u "            margin-bottom: 1em;" ++ nl
  ++ u "        }" ++ nl
  ++ u "        .external {" ++ nl
  ++ u "            text-decoration: none;" ++ nl
  ++ u "        }" ++ nl
  ++ u "    </style>" ++ nl
  ++ u "</head>" ++ nl
  ++ u "<body>" ++ nl
  ++ u "    <h1>References</h1>" ++ nl
  ++ u "    <ul>" ++ nl
  ++ html_content ++ nl
  ++ u "    </ul>" ++ nl
  ++ u "</body>" ++ nl
  ++ u "</html>".

(** The world the function acts on: what was printed, and the files. *)
Record World : Type := mkWorld {
  console : list pystr;
  files : gmap (list N) (list N)
}.

(** What the surroundings do during one run. Each failure carries the
    text of its exception.
    - [load]: [bibtexparser.load] on the text of the input file, the
      records or the exception of decoding or parsing;
    - [open_r_error]: opening the existing input file fails;
    - [open_w_error]: opening the output file fails;
    - [write_error]: writing fails after that many characters have
      reached the output file. *)
Record Env : Type := mkEnv {
  load : pystr -> list entry + pystr;
  open_r_error : option pystr;
  open_w_error : option pystr;
  write_error : option (nat * pystr)
}.

(** How a call ends: it returns, or an exception leaves it. *)
Inductive outcome : Type :=
| Returned
| Uncaught (e : exn).

Definition print (msg : pystr) (w : World) : World :=
  mkWorld (console w ++ [msg]) (files w).

Definition set_file (path text : pystr) (w : World) : World :=
  mkWorld (console w) (<[path:=text]> (files w)).

(** Lines 137-150: the [try] block and its two handlers. *)
Inductive read_result : Type :=
| ReadOk (entries : list entry)
| ReadNotFound
| ReadFailed (cause : pystr).

Definition read_entries (env : Env) (input_file : pystr) (w : World)
  : read_result :=
  match files w !! input_file with
  | None => ReadNotFound
  | Some text =>
      match open_r_error env with
      | Some cause => ReadFailed cause
      | None =>
          match load env text with
          | inl entries => ReadOk entries
          | inr cause => ReadFailed cause
          end
      end
  end.

(** Lines 192-197. [open(output_file, 'w')] creates the file or empties
    it; what [write] got through before failing stays in it. *)
Definition write_output (env : Env) (output_file full_html : pystr)
    (w : World) : World :=
  match open_w_error env with
  | Some cause => print (u "ERROR in writing the HTML file: " ++ cause) w
  | None =>
      let w := set_file output_file [] w in
      match write_error env with
      | Some (n, cause) =>
          let w := set_file output_file (firstn n full_html) w in
          print (u "ERROR in writing the HTML file: " ++ cause) w
      | None =>
          let w := set_file output_file full_html w in
          print (nl ++ [9989] ++ u " Conversion complete! HTML file saved as: "
                 ++ output_file) w
      end
  end.

Definition convert_bib_to_html (env : Env) (input_file output_file : pystr)
    (w : World) : World * outcome :=
  let w := print (u "Reading the BibTeX file: " ++ input_file) w in
  match read_entries env input_file w with
  | ReadNotFound =>
      (print (u "ERROR: File not found: " ++ input_file) w, Returned)
  | ReadFailed cause =>
      (print (u "ERROR while trying to read the BibTeX file: " ++ cause) w,
       Returned)
  | ReadOk entries =>
      let w := print (u "Sorting entries by year...") w in
      match sort_entries entries with
      | Raise e => (w, Uncaught e)
      | Ok sorted_entries =>
          match html_content_of sorted_entries [] with
          | Raise e => (w, Uncaught e)
          | Ok html_content =>
              (write_output env output_file (full_html_of html_content) w,
               Returned)
          end
      end
  end.

End Convert.

Close Scope py_scope.

(** ** The notions of the specification *)

(** A record written as the list of its fields. *)
Definition record (fields : list (string * string)) : entry :=
  list_to_map (List.map (fun f => (u (fst f), u (snd f))) fields).

(** The field of that name, if the record has it. *)
Definition field (name : string) (e : entry) : option pystr := e !! u name.

(** *** Primary link *)

Definition recognizable_url (v : pystr) : bool :=
  startswith (u "http") v || startswith (u "ftp") v.

Definition is_placeholder (v : pystr) : bool := bool_decide (v = u "#").

(** The constructed DOI link when there is a doi field, else the
    placeholder. *)
Definition doi_link_or_placeholder (e : entry) : pystr :=
  match field "doi" e with
  | Some doi => u "https://doi.org/" ++ doi
  | None => u "#"
  end.

(** The priority chain in the words of the specification. *)
Definition claimed_primary_link (e : entry) : pystr :=
  match field "url" e with
  | Some url => if recognizable_url url then url else doi_link_or_placeholder e
  | None => doi_link_or_placeholder e
  end.

(** The chain as the formatter resolves it: a doi that is itself a URL is
    used as it stands when there is no url field, and a value equal to the
    placeholder is kept. *)
Definition primary_link (e : entry) : pystr :=
  match field "url" e with
  | Some url =>
      if is_placeholder url || recognizable_url url then url
      else doi_link_or_placeholder e
  | None =>
      match field "doi" e with
      | Some doi =>
          if is_placeholder doi || recognizable_url doi then doi
          else u "https://doi.org/" ++ doi
      | None => u "#"
      end
  end.

(** *** Author string *)

Definition comma : N := 44.

Definition has_comma (s : pystr) : bool := existsb (N.eqb comma) s.

Fixpoint before_first_comma (s : pystr) : pystr :=
  match s with
  | [] => []
  | c :: s' => if c =? comma then [] else c :: before_first_comma s'
  end.

(** The characters of [s] up to its first whitespace. *)
Fixpoint take_nonspace (s : pystr) : pystr :=
  match s with
  | [] => []
  | c :: s' => if isspace c then [] else c :: take_nonspace s'
  end.

(** The last whitespace-delimited token, if there is one: read from the
    end, past the trailing whitespace, up to the next whitespace. *)
Definition last_token (s : pystr) : option pystr :=
  match take_nonspace (lstrip (rev s)) with
  | [] => None
  | c :: t => Some (rev (c :: t))
  end.

(** The pieces of an author field: split on " and ", each one trimmed. *)
Definition author_pieces (author : pystr) : list pystr :=
  List.map strip (split (u " and ") author).

(** The surname of a piece in the words of the specification. *)
Definition claimed_surname (piece : pystr) : option pystr :=
  if has_comma piece then Some (before_first_comma piece)
  else last_token piece.

(** The surname of a piece as computed: the text before the first comma is
    trimmed too. *)
Definition surname (piece : pystr) : option pystr :=
  if has_comma piece then Some (strip (before_first_comma piece))
  else last_token piece.

Fixpoint all_some {A} (l : list (option A)) : option (list A) :=
  match l with
  | [] => Some []
  | None :: _ => None
  | Some x :: r =>
      match all_some r with
      | Some xs => Some (x :: xs)
      | None => None
      end
  end.

(** ", " between all but the last, " & " before the last. *)
Fixpoint join_surnames (names : list pystr) : pystr :=
  match names with
  | [] => []
  | [a] => a
  | [a; b] => a ++ u " & " ++ b
  | a :: rest => a ++ u ", " ++ join_surnames rest
  end.

Definition author_string_with (surname_of : pystr -> option pystr)
    (e : entry) : option pystr :=
  match field "author" e with
  | None => Some []
  | Some author =>
      match all_some (List.map surname_of (author_pieces author)) with
      | Some names => Some (join_surnames names)
      | None => None
      end
  end.

(** The author string in the words of the specification; [None] where a
    piece has neither a comma nor a token. *)
Definition claimed_author_string : entry -> option pystr :=
  author_string_with claimed_surname.

Definition author_string : entry -> option pystr :=
  author_string_with surname.

(** *** Custom note *)

Definition enclosed (s : pystr) : bool :=
  startswith (u "(") s && endswith (u ")") s.

Definition note_of (e : entry) : pystr :=
  match field "note" e with Some v => v | None => [] end.

(** The condition in the words of the specification: on the trimmed text. *)
Definition claimed_note_populated (e : entry) : bool :=
  enclosed (strip (note_of e)).

(** The condition as tested: on the field as it is. *)
Definition note_populated (e : entry) : bool := enclosed (note_of e).

Definition custom_note (e : entry) : pystr :=
  if note_populated e then strip (note_of e) else [].

(** What closes the sentence of the title after the links. *)
Definition note_sentence (populated : bool) (note : pystr) : pystr :=
  if populated then u " <strong>" ++ note ++ u "</strong>." else u ".".

(** *** Auxiliary links *)

Definition url_key (n : nat) : pystr := u "url_" ++ str n.
Definition url_note_key (n : nat) : pystr := u "url_note_" ++ str n.

Definition has_url (e : entry) (n : nat) : bool :=
  match e !! url_key n with Some _ => true | None => false end.

(** The indices before the first one that has no url field. *)
Fixpoint leading_present (e : entry) (indices : list nat) : list nat :=
  match indices with
  | [] => []
  | n :: rest => if has_url e n then n :: leading_present e rest else []
  end.

Definition link_label (e : entry) (n : nat) : pystr :=
  match e !! url_note_key n with
  | Some label => label
  | None => u "link " ++ str n
  end.

Definition link_url (e : entry) (n : nat) : pystr :=
  match e !! url_key n with Some url => url | None => [] end.

(** The auxiliary links of a record: (index, url, label). *)
Definition auxiliary_links (e : entry) : list (nat * pystr * pystr) :=
  List.map (fun n => (n, link_url e n, link_label e n))
    (leading_present e range_2_31).

Definition links_html (links : list (nat * pystr * pystr)) : pystr :=
  List.concat (List.map (fun l => html_link (snd (fst l)) (snd l)) links).

(** *** Venue line *)

Definition em (s : pystr) : pystr := u "<em>" ++ s ++ u "</em>".

Definition container_of (e : entry) : pystr :=
  match field "journal" e, field "booktitle" e, field "publisher" e with
  | Some journal, _, _ => em journal
  | None, Some booktitle, _ => em (u "In " ++ booktitle)
  | None, None, Some publisher => em publisher
  | None, None, None => []
  end.

Definition volume_of (e : entry) : pystr :=
  match field "volume" e with
  | Some volume => u ", Vol. " ++ volume
  | None => []
  end.

Definition pages_of (e : entry) : pystr :=
  match field "pages" e with
  | Some pages => u ", pp. " ++ replace (u "--") en_dash pages
  | None => []
  end.

Definition has_venue (e : entry) : bool :=
  truthy (container_of e) || truthy (volume_of e) || truthy (pages_of e).

Definition venue_sentence (e : entry) : pystr :=
  if has_venue e
  then u " " ++ container_of e ++ volume_of e ++ pages_of e ++ u "."
  else [].

(** *** The fragment *)

Definition title_of (e : entry) : pystr :=
  match field "title" e with Some v => v | None => u "Unknown title" end.

Definition year_of (e : entry) : pystr :=
  match field "year" e with Some v => v | None => u "n.d." end.

(** The fragment up to and including the links. *)
Definition fragment_links (e : entry) (author_str : pystr) : pystr :=
  html_head author_str (year_of e) (primary_link e) (title_of e)
  ++ links_html (auxiliary_links e).

Definition fragment_close : pystr := u "</p>" ++ nl ++ u "</li>".

Definition fragment (e : entry) (author_str : pystr) : pystr :=
  fragment_links e author_str
  ++ note_sentence (note_populated e) (custom_note e)
  ++ venue_sentence e ++ fragment_close.

(** *** Sorting *)

(** The composite key of the specification: the raw year, then the key of
    the first pass. *)
Definition composite_key (lower : pystr -> pystr) (e : entry)
  : result (pystr * pystr) :=
  match eval (author_sort_key lower) e with
  | Raise x => Raise x
  | Ok surname_key =>
      match eval year_sort_key e with
      | Raise x => Raise x
      | Ok year => Ok (year, surname_key)
      end
  end.

(** One stable sort by the composite key. *)
Definition sort_entries_composite (lower : pystr -> pystr)
    (entries : list entry) : result (list entry) :=
  sorted pair_lt (composite_key lower) entries.

(** *** Stable sorting on the elements themselves *)

Section SortBy.

Context {A K : Type}.
Variable lt : K -> K -> bool.
Variable f : A -> K.

(** [insert_keyed] without the decoration: the key is recomputed. *)
Fixpoint insert_by (x : A) (l : list A) : list A :=
  match l with
  | [] => [x]
  | y :: r => if lt (f y) (f x) then y :: insert_by x r else x :: y :: r
  end.

Definition sort_by (l : list A) : list A := List.fold_right insert_by [] l.

End SortBy.

(** [y] is not below [x] for the key [f]. *)
Definition not_below {A} (f : A -> pystr) (x y : A) : Prop :=
  str_lt (f y) (f x) = false.

(** Sorted for the key [f]: nothing is below what comes before it. *)
Inductive sorted_for {A} (f : A -> pystr) : list A -> Prop :=
| sorted_for_nil : sorted_for f []
| sorted_for_cons (y : A) (r : list A) :
    Forall (not_below f y) r -> sorted_for f r -> sorted_for f (y :: r).

(** *** Records used as examples *)

Definition three_authors : entry :=
  record [("author", "Jane Doe and Richard Roe and Amy Lee")]%string.

Definition spaced_comma : entry :=
  record [("author", "Doe , Jane and Roe, Richard")]%string.

Definition empty_author : entry :=
  record [("author", EmptyString)]%string.

Definition trailing_separator : entry :=
  record [("author", "Jane Doe and ")]%string.

Definition double_separator : entry :=
  record [("author", "Jane Doe and  and Amy Lee")]%string.

Definition blank_author : entry := record [("author", "   ")]%string.

Definition no_author : entry :=
  record [("title", "A title"); ("year", "2000")]%string.

Definition url_and_doi : entry :=
  record [("url", "https://x.org/p"); ("doi", "10.1/x")]%string.

Definition only_doi : entry := record [("doi", "10.1/x")]%string.

Definition not_a_link : entry := record [("url", "not-a-link")]%string.

Definition doi_is_url : entry :=
  record [("doi", "https://doi.org/10.1/x")]%string.

Definition placeholder_url : entry :=
  record [("url", "#"); ("doi", "10.1/x")]%string.

Definition padded_note : entry := record [("note", " (AlexNet)")]%string.

Definition alexnet_note : entry := record [("note", "(AlexNet)")]%string.

Definition errata_note : entry := record [("note", "see errata")]%string.

Definition links_2_and_4 : entry :=
  record [("url_2", "https://a.org"); ("url_4", "https://b.org")]%string.

Definition pages_100_110 : entry := record [("pages", "100--110")]%string.

Definition hyphen : N := 45.

Definition present (o : option pystr) : bool :=
  match o with Some _ => true | None => false end.

(** *** The run as a whole *)

(** Sorting and formatting, up to the document to be written. *)
Definition prepare (lower : pystr -> pystr) (entries : list entry)
  : result pystr :=
  match sort_entries lower entries with
  | Raise x => Raise x
  | Ok sorted_entries =>
      match html_content_of sorted_entries [] with
      | Raise x => Raise x
      | Ok html_content => Ok (full_html_of html_content)
      end
  end.


(** More records and worlds used as examples. *)

Definition zed_1998 : entry := record [("author", "Zed"); ("year", "1998")]%string.
Definition ann_1998 : entry := record [("author", "Ann"); ("year", "1998")]%string.
Definition lee_1990 : entry := record [("author", "Lee"); ("year", "1990")]%string.
Definition old_900 : entry := record [("author", "Old"); ("year", "900")]%string.
Definition new_2012 : entry := record [("author", "New"); ("year", "2012")]%string.

Definition input_bib : pystr := u "bibliography.bib".
Definition output_html : pystr := u "references.html".

(** A world with the input file and no output file yet. *)
Definition world_with_input : World :=
  mkWorld [] {[ input_bib := u "@article{...}" ]}.

(** A world without the input file. *)
Definition world_without_input : World := mkWorld [] ∅.

(** The parser yields [entries] and nothing fails. *)
Definition env_ok (entries : list entry) : Env :=
  mkEnv (fun _ => inl entries) None None None.


Definition reading_message (input_file : pystr) : pystr :=
  u "Reading the BibTeX file: " ++ input_file.

(** *** Pages *)

(** The specification's replacement, read from the left: each pair of
    hyphens (code point 45) becomes one en-dash (code point 8211, U+2013);
    every other character stays. *)
Fixpoint dash_pairs (s : pystr) : pystr :=
  match s with
  | [] => []
  | c :: t =>
      match t with
      | [] => [c]
      | d :: t' =>
          if (c =? 45) && (d =? 45) then 8211 :: dash_pairs t'
          else c :: dash_pairs t
      end
  end.

(** The way back: each en-dash becomes two hyphens. *)
Definition undash (s : pystr) : pystr :=
  List.flat_map (fun c => if c =? 8211 then [45; 45] else [c]) s.

(** ** Further notions *)

(** Nothing but whitespace. *)
Definition blank (s : pystr) : Prop := Forall (fun c => isspace c = true) s.

Definition author_or_empty (e : entry) : pystr :=
  match field "author" e with Some a => a | None => [] end.

(** The text the first sort looks at: the first piece of the author field,
    untrimmed, up to its first comma. *)
Definition first_author_text (e : entry) : pystr :=
  before_first_comma (List.hd [] (split (u " and ") (author_or_empty e))).

(** A piece of the author field is empty once trimmed. *)
Definition has_blank_piece (e : entry) : Prop :=
  exists a, field "author" e = Some a
            /\ List.Exists (fun p => strip p = []) (split (u " and ") a).

(** The record makes the sort or the formatter raise. *)
Definition unsortable_or_unformattable (e : entry) : Prop :=
  blank (first_author_text e) \/ has_blank_piece e.

Section Ordered.

Context {A K : Type}.
Variable lt : K -> K -> bool.
Variable f : A -> K.

(** [y] may follow [x]: its key is not smaller. *)
Definition may_follow (x y : A) : Prop := lt (f y) (f x) = false.

(** In order: every element may follow all those before it. *)
Inductive ordered : list A -> Prop :=
| ordered_nil : ordered []
| ordered_cons (y : A) (r : list A) :
    Forall (may_follow y) r -> ordered r -> ordered (y :: r).

End Ordered.

Section WithKey.

Context {A K : Type} `{EqDecision K}.
Variable f : A -> K.

(** The elements of [l] whose key is [k], in the order of [l]. *)
Definition with_key (k : K) (l : list A) : list A :=
  List.filter (fun x => bool_decide (f x = k)) l.

End WithKey.

Definition surname_key (lower : pystr -> pystr) (e : entry) : pystr :=
  match eval (author_sort_key lower) e with Ok k => k | Raise _ => [] end.

Definition year_key (e : entry) : pystr :=
  match field "year" e with Some v => v | None => [] end.

(** The pair the two passes order by. *)
Definition sort_key (lower : pystr -> pystr) (e : entry) : pystr * pystr :=
  (year_key e, surname_key lower e).

Definition author_str_of (e : entry) : pystr :=
  match author_string e with Some s => s | None => [] end.

(** The fragment of a record that has an author string. *)
Definition fragment_of (e : entry) : pystr := fragment e (author_str_of e).

Definition success_message (output_file : pystr) : pystr :=
  nl ++ [9989] ++ u " Conversion complete! HTML file saved as: " ++ output_file.

Definition not_found_message (input_file : pystr) : pystr :=
  u "ERROR: File not found: " ++ input_file.

Definition named_fields : list string :=
  ["title"; "author"; "year"; "url"; "doi"; "note"; "journal"; "booktitle";
   "publisher"; "volume"; "pages"]%string.

(** The keys [format_bibtex_entry] can look up. *)
Definition read_keys : list pystr :=
  List.map u named_fields
  ++ List.map url_key range_2_31 ++ List.map url_note_key range_2_31.

Definition pages_12_15 : entry := record [("pages", "12-15")]%string.

Definition ann_1998_b : entry :=
  record [("author", "Ann"); ("year", "1998"); ("title", "B")]%string.

Definition ann_1998_a : entry :=
  record [("author", "Ann"); ("year", "1998"); ("title", "A")]%string.

(** ** The script run as a program (lines 200-237) *)

Definition SCRIPT_DIR : pystr := [].
Definition INPUT_BIB : pystr := SCRIPT_DIR ++ u "bibliography.bib".
Definition OUTPUT_HTML : pystr := SCRIPT_DIR ++ u "references.html".

(** Lines 207-229. In the source the escape in front of the apostrophe of
    Bottou's first name is consumed by the string literal. *)
Definition example_bib_content : pystr :=
  join nl
    [ [];
      u "@inproceedings{krizhevsky2012imagenet,";
      u "  title={{ImageNet Classification with Deep Convolutional Neural Networks}},";
      u "  author={Krizhevsky, Alex and Sutskever, Ilya and Hinton, Geoffrey E.},";
      u "  booktitle={Proceedings of the 25th International Conference on Neural Information Processing Systems (NIPS)},";
      u "  volume={1},";
      u "  pages={1097--1105},";
      u "  year={2012},";
      u "  note={(AlexNet)},";
      u "  url={https://proceedings.neurips.cc/paper_files/paper/2012/file/c399862d3b9d6b76c8436e924a68c45b-Paper.pdf}";
      u "}";
      [];
      u "@article{lecun1998gradient,";
      u "  title={Gradient-based learning applied to document recognition},";
      u "  author={LeCun, Yann and Bottou, L{'e}on and Bengio, Yoshua and Haffner, Patrick},";
      u "  journal={Proceedings of the IEEE},";
      u "  volume={86},";
      u "  number={11},";
      u "  pages={2278--2324},";
      u "  year={1998},";
      u "  doi={10.1109/5.726791}";
      u "}";
      [] ].

(** How writing the example file goes: opening it fails, or writing fails
    after that many characters, or neither. No handler surrounds it. *)
Record Boot : Type := mkBoot {
  boot_open_error : option pystr;
  boot_write_error : option (nat * pystr)
}.

(** How the program ends: normally, by an exception of the conversion, or
    by the exception of writing the example file. *)
Inductive main_outcome : Type :=
| Exited
| Crashed (e : exn)
| BootstrapFailed (cause : pystr).

Definition bootstrap_message : pystr :=
  u "Creato un file di esempio '" ++ INPUT_BIB ++ u "' per il test.".

Definition run_convert (lower : pystr -> pystr) (env : Env) (w : World)
  : World * main_outcome :=
  match convert_bib_to_html lower env INPUT_BIB OUTPUT_HTML w with
  | (w', Returned) => (w', Exited)
  | (w', Uncaught e) => (w', Crashed e)
  end.

(** Lines 231-237. [os.path.exists] is the presence of the file. *)
Definition main (lower : pystr -> pystr) (boot : Boot) (env : Env) (w : World)
  : World * main_outcome :=
  match files w !! INPUT_BIB with
  | Some _ => run_convert lower env w
  | None =>
      match boot_open_error boot with
      | Some cause => (w, BootstrapFailed cause)
      | None =>
          let w := set_file INPUT_BIB [] w in
          match boot_write_error boot with
          | Some (n, cause) =>
              (set_file INPUT_BIB (firstn n (strip example_bib_content)) w,
               BootstrapFailed cause)
          | None =>
              let w := set_file INPUT_BIB (strip example_bib_content) w in
              let w := print bootstrap_message w in
              run_convert lower env w
          end
      end
  end.

Definition boot_ok : Boot := mkBoot None None.


(** * Properties *)

(** ** Computations that only read the record *)

Definition reads_only {A} (m : Py A) : Prop := forall d, fst (m d) = d.

Lemma reads_only_ret {A} (a : A) : reads_only (ret a).
Proof. intros d. reflexivity. Qed.

Lemma reads_only_lift {A} (r : result A) : reads_only (lift r).
Proof. intros d. reflexivity. Qed.

Lemma reads_only_contains k : reads_only (contains k).
Proof. intros d. reflexivity. Qed.

Lemma reads_only_get k dflt : reads_only (get k dflt).
Proof. intros d. reflexivity. Qed.

Lemma reads_only_getitem k : reads_only (getitem k).
Proof. intros d. reflexivity. Qed.

Lemma reads_only_bind {A B} (m : Py A) (k : A -> Py B) :
  reads_only m -> (forall a, reads_only (k a)) -> reads_only (bind m k).
Proof.
  intros Hm Hk d. unfold bind.
  specialize (Hm d). destruct (m d) as [d' [a|x]]; simpl in Hm; subst d'.
  - apply Hk.
  - reflexivity.
Qed.

Lemma reads_only_if {A} (b : bool) (m1 m2 : Py A) :
  reads_only m1 -> reads_only m2 -> reads_only (if b then m1 else m2).
Proof. destruct b; auto. Qed.

Create HintDb reads.
#[local] Hint Resolve reads_only_ret reads_only_lift reads_only_contains
  reads_only_get reads_only_getitem reads_only_if : reads.

Ltac reads_only_tac :=
  repeat first
    [ solve [ auto with reads ]
    | apply reads_only_bind; [ | intros ? ]
    | apply reads_only_if
    | progress cbv zeta ].

(** [setitem] is not of that kind: the state of the monad does record a
    write. *)
Lemma setitem_writes : ~ reads_only (setitem (u "k") (u "v")).
Proof.
  intros H. specialize (H ∅). unfold setitem in H. simpl in H.
  assert (Hl : (<[u "k":=u "v"]> (∅ : entry)) !! u "k" = (∅ : entry) !! u "k")
    by (rewrite H; reflexivity).
  rewrite lookup_insert_eq, lookup_empty in Hl. discriminate.
Qed.

Lemma reads_only_run {A} (m : Py A) (d : entry) :
  reads_only m -> m d = (d, eval m d).
Proof.
  intros H. unfold eval. specialize (H d).
  destruct (m d) as [d' r]; simpl in *; subst; reflexivity.
Qed.

Lemma get_author_string_reads : reads_only get_author_string.
Proof.
  unfold get_author_string. reads_only_tac.
  destruct a1 as [|? ?]; auto with reads.
Qed.

Lemma resolve_link_reads : reads_only resolve_link.
Proof. unfold resolve_link. reads_only_tac. Qed.

Lemma resolve_note_reads : reads_only resolve_note.
Proof. unfold resolve_note. reads_only_tac. Qed.

Lemma resolve_container_reads : reads_only resolve_container.
Proof. unfold resolve_container. reads_only_tac. Qed.

Lemma resolve_volume_reads : reads_only resolve_volume.
Proof. unfold resolve_volume. reads_only_tac. Qed.

Lemma resolve_pages_reads : reads_only resolve_pages.
Proof. unfold resolve_pages. reads_only_tac. Qed.

Lemma links_loop_reads indices : forall html, reads_only (links_loop indices html).
Proof.
  induction indices as [|a rest IH]; intros html; simpl.
  - auto with reads.
  - reads_only_tac.
Qed.

#[local] Hint Resolve get_author_string_reads resolve_link_reads
  resolve_note_reads resolve_container_reads resolve_volume_reads
  resolve_pages_reads links_loop_reads : reads.

Lemma format_bibtex_entry_reads : reads_only format_bibtex_entry.
Proof. unfold format_bibtex_entry. reads_only_tac. Qed.

(** ** Facts about the string operations *)

Lemma startswith_single (c : N) (s : pystr) :
  startswith [c] s = true -> exists t, s = c :: t.
Proof.
  destruct s as [|b t]; simpl; [discriminate|].
  rewrite andb_true_r. intros H. apply N.eqb_eq in H. subst. eauto.
Qed.

Lemma lstrip_nonspace (c : N) (s : pystr) :
  isspace c = false -> lstrip (c :: s) = c :: s.
Proof. intros H. simpl. rewrite H. reflexivity. Qed.

(** A string enclosed in parentheses has nothing to trim. *)
Lemma strip_enclosed (s : pystr) : enclosed s = true -> strip s = s.
Proof.
  unfold enclosed, endswith. intros H. apply andb_true_iff in H as [Hl Hr].
  apply startswith_single in Hl as [t ->].
  apply startswith_single in Hr as [t' Hr].
  unfold strip, rstrip. rewrite lstrip_nonspace by reflexivity.
  rewrite Hr. rewrite lstrip_nonspace by reflexivity.
  rewrite <- Hr. apply rev_involutive.
Qed.

Lemma enclosed_truthy (s : pystr) : enclosed s = true -> truthy s = true.
Proof.
  unfold enclosed. intros H. apply andb_true_iff in H as [Hl _].
  apply startswith_single in Hl as [t ->]. reflexivity.
Qed.

Lemma custom_note_truthy (e : entry) :
  truthy (custom_note e) = note_populated e.
Proof.
  unfold custom_note. destruct (note_populated e) eqn:Hp; [|reflexivity].
  unfold note_populated in Hp. rewrite strip_enclosed by assumption.
  apply enclosed_truthy; assumption.
Qed.

Lemma contains_comma (s : pystr) : contains_str (u ",") s = has_comma s.
Proof.
  change (u ",") with [comma].
  induction s as [|c s IH]; [reflexivity|].
  cbn [contains_str has_comma existsb startswith]. rewrite IH.
  rewrite andb_true_r. reflexivity.
Qed.

(** The first part of a split on commas is the text before the first
    comma. *)
Lemma split_comma_head (s : pystr) :
  exists rest, split (u ",") s = before_first_comma s :: rest.
Proof.
  change (u ",") with [comma]. unfold split.
  induction s as [|c s [rest IH]].
  - exists []. reflexivity.
  - cbn [split_go before_first_comma startswith List.length Nat.pred].
    rewrite andb_true_r, (N.eqb_sym comma c).
    destruct (c =? comma); [eauto|].
    rewrite IH. eauto.
Qed.

Lemma join_but_last (a b : pystr) (rest : list pystr) :
  forall final, last (a :: b :: rest) = Some final ->
    join (u ", ") (removelast (a :: b :: rest)) ++ u " & " ++ final
    = join_surnames (a :: b :: rest).
Proof.
  revert a b. induction rest as [|c r IH]; intros a b final Hlast.
  - simpl in Hlast. injection Hlast as <-. reflexivity.
  - change (last (a :: b :: c :: r)) with (last (b :: c :: r)) in Hlast.
    specialize (IH b c final Hlast).
    change (removelast (a :: b :: c :: r))
      with (a :: removelast (b :: c :: r)).
    change (join_surnames (a :: b :: c :: r))
      with (a ++ u ", " ++ join_surnames (b :: c :: r)).
    rewrite <- IH.
    change (removelast (b :: c :: r)) with (b :: removelast (c :: r)).
    cbn [join]. rewrite <- !app_assoc. reflexivity.
Qed.

Lemma lstrip_app_nil (y w : pystr) : lstrip y = [] -> lstrip (y ++ w) = lstrip w.
Proof.
  induction y as [|a y IH]; [reflexivity|].
  cbn [lstrip app]. destruct (isspace a); [exact IH|discriminate].
Qed.

Lemma lstrip_app_cons (y w : pystr) (a : N) (y' : pystr) :
  lstrip y = a :: y' -> lstrip (y ++ w) = a :: y' ++ w /\ isspace a = false.
Proof.
  induction y as [|b y IH]; [discriminate|].
  cbn [lstrip app]. destruct (isspace b) eqn:Hb; [exact IH|].
  intros H. injection H as <- <-. split; [reflexivity|assumption].
Qed.

Lemma take_nonspace_app_space (y z : pystr) (c : N) :
  isspace c = true -> take_nonspace (y ++ c :: z) = take_nonspace y.
Proof.
  intros Hc. induction y as [|a y IH]; cbn [take_nonspace app].
  - rewrite Hc. reflexivity.
  - destruct (isspace a); [reflexivity|]. rewrite IH. reflexivity.
Qed.

Lemma take_nonspace_all (s : pystr) :
  Forall (fun c => isspace c = false) s -> take_nonspace s = s.
Proof.
  induction 1 as [|c s Hc _ IH]; [reflexivity|].
  cbn [take_nonspace]. rewrite Hc, IH. reflexivity.
Qed.

Lemma last_token_reversed (y : pystr) :
  last_token (rev y) =
  match take_nonspace (lstrip y) with
  | [] => None
  | c :: t => Some (rev (c :: t))
  end.
Proof. unfold last_token. rewrite rev_involutive. reflexivity. Qed.

(** The last part of [str.split()] is the last run of characters that are
    not whitespace. *)
Lemma split_ws_go_last (s : pystr) :
  forall cur,
    Forall (fun c => isspace c = false) cur ->
    last (split_ws_go cur s) = last_token (rev cur ++ s).
Proof.
  induction s as [|c s IH]; intros cur Hcur.
  - rewrite app_nil_r, last_token_reversed. cbn [split_ws_go].
    destruct Hcur as [|d cur Hd Hcur]; [reflexivity|].
    rewrite lstrip_nonspace by assumption.
    rewrite take_nonspace_all by (constructor; assumption). reflexivity.
  - cbn [split_ws_go]. destruct (isspace c) eqn:Hc.
    + assert (Hrev : rev cur ++ c :: s = rev (rev s ++ c :: cur)).
      { rewrite rev_app_distr. cbn [rev]. rewrite rev_involutive.
        rewrite <- app_assoc. reflexivity. }
      rewrite Hrev, last_token_reversed.
      assert (IH0 := IH [] (List.Forall_nil _)). cbn [rev app] in IH0.
      rewrite <- (rev_involutive s), last_token_reversed in IH0.
      rewrite rev_involutive in IH0.
      destruct (lstrip (rev s)) as [|a y'] eqn:Hl.
      * rewrite (lstrip_app_nil _ _ Hl). cbn [lstrip]. rewrite Hc.
        cbn [take_nonspace] in IH0.
        destruct Hcur as [|d cur Hd Hcur].
        -- exact IH0.
        -- rewrite last_cons, IH0. rewrite lstrip_nonspace by assumption.
           rewrite take_nonspace_all by (constructor; assumption). reflexivity.
      * destruct (lstrip_app_cons _ (c :: cur) _ _ Hl) as [-> Ha].
        rewrite app_comm_cons, take_nonspace_app_space by assumption.
        cbn [take_nonspace] in *. rewrite Ha in *.
        destruct Hcur as [|d cur Hd Hcur]; [exact IH0|].
        rewrite last_cons, IH0. reflexivity.
    + rewrite (IH (c :: cur)) by (constructor; assumption).
      cbn [rev]. rewrite <- app_assoc. reflexivity.
Qed.

Lemma split_ws_last (s : pystr) : last (split_ws s) = last_token s.
Proof. apply (split_ws_go_last s [] (List.Forall_nil _)). Qed.

(** The loop body computes [surname] of the trimmed piece. *)
Lemma author_last_surname (author : pystr) :
  author_last author =
  match surname (strip author) with
  | Some s => Ok s
  | None => Raise IndexError
  end.
Proof.
  unfold author_last, surname. cbv zeta. rewrite contains_comma.
  destruct (has_comma (strip author)).
  - destruct (split_comma_head (strip author)) as [rest ->]. reflexivity.
  - unfold index_last. rewrite split_ws_last.
    destruct (last_token (strip author)); reflexivity.
Qed.

Lemma author_loop_surnames (authors : list pystr) :
  forall formatted_authors,
    author_loop authors formatted_authors =
    match all_some (List.map surname (List.map strip authors)) with
    | Some names => Ok (formatted_authors ++ names)
    | None => Raise IndexError
    end.
Proof.
  induction authors as [|a rest IH]; intros acc.
  - simpl. rewrite app_nil_r. reflexivity.
  - cbn [author_loop List.map all_some]. rewrite author_last_surname.
    destruct (surname (strip a)) as [s|]; [|reflexivity].
    rewrite IH.
    destruct (all_some (List.map surname (List.map strip rest))); [|reflexivity].
    rewrite <- app_assoc. reflexivity.
Qed.

(** ** What each block of the formatter returns *)

Ltac run_block := cbv [bind get contains getitem ret lift].

Ltac bool_red := cbv beta iota delta [negb andb orb].

Ltac run_step e :=
  bool_red;
  match goal with
  | H : e !! ?k = _ |- context [e !! ?k] => rewrite !H
  | |- context [e !! ?k] => destruct (e !! k) eqn:?
  | |- context [bool_decide ?P] => destruct (bool_decide P) eqn:?
  | |- context [startswith ?a ?b] => destruct (startswith a b) eqn:?
  | |- context [endswith ?a ?b] => destruct (endswith a b) eqn:?
  end.

Ltac run_steps e := run_block; repeat run_step e; bool_red.

Lemma resolve_link_run (e : entry) : resolve_link e = (e, Ok (primary_link e)).
Proof.
  unfold resolve_link, primary_link, doi_link_or_placeholder, field,
    is_placeholder, recognizable_url.
  run_steps e; reflexivity.
Qed.

Lemma resolve_note_run (e : entry) : resolve_note e = (e, Ok (custom_note e)).
Proof.
  unfold resolve_note, custom_note, note_populated, enclosed, note_of, field.
  run_steps e;
    first [ reflexivity
          | match goal with
            | H : startswith _ [] = true |- _ => vm_compute in H; discriminate
            end ].
Qed.

Lemma resolve_container_run (e : entry) :
  resolve_container e = (e, Ok (container_of e)).
Proof.
  unfold resolve_container, container_of, em, field.
  run_steps e; rewrite <- ?app_assoc; reflexivity.
Qed.

Lemma resolve_volume_run (e : entry) : resolve_volume e = (e, Ok (volume_of e)).
Proof.
  unfold resolve_volume, volume_of, field. run_steps e; reflexivity.
Qed.

Lemma resolve_pages_run (e : entry) : resolve_pages e = (e, Ok (pages_of e)).
Proof.
  unfold resolve_pages, pages_of, field. run_steps e; reflexivity.
Qed.

Lemma links_loop_run (e : entry) (indices : list nat) :
  forall html,
    links_loop indices html e =
    (e, Ok (html ++ links_html
                      (List.map (fun n => (n, link_url e n, link_label e n))
                         (leading_present e indices)))).
Proof.
  induction indices as [|a rest IH]; intros html.
  - cbn [links_loop leading_present List.map]. unfold links_html, ret.
    cbn [List.map List.concat]. rewrite app_nil_r. reflexivity.
  - cbn [links_loop leading_present]. unfold has_url. run_block.
    fold (url_key a) (url_note_key a).
    destruct (e !! url_key a) as [url|] eqn:Hurl; bool_red.
    + destruct (e !! url_note_key a) as [label|] eqn:Hlabel; bool_red;
        rewrite ?Hurl, ?Hlabel; bool_red; rewrite IH; cbn [List.map];
        unfold links_html; cbn [List.map List.concat fst snd];
        unfold link_url, link_label; rewrite ?Hurl, ?Hlabel;
        rewrite <- app_assoc; reflexivity.
    + unfold links_html. cbn [List.map List.concat]. rewrite app_nil_r.
      reflexivity.
Qed.

Lemma format_bibtex_entry_run (e : entry) :
  format_bibtex_entry e =
  (e, match eval get_author_string e with
      | Raise x => Raise x
      | Ok author_str => Ok (fragment e author_str)
      end).
Proof.
  unfold format_bibtex_entry. cbv [bind get ret].
  rewrite (reads_only_run get_author_string e get_author_string_reads).
  destruct (eval get_author_string e) as [author_str|x]; [|reflexivity].
  cbv beta iota.
  rewrite resolve_link_run; cbv beta iota.
  rewrite resolve_note_run; cbv beta iota.
  rewrite resolve_container_run; cbv beta iota.
  rewrite resolve_volume_run; cbv beta iota.
  rewrite resolve_pages_run; cbv beta iota zeta.
  rewrite links_loop_run; cbv beta iota.
  unfold fragment, fragment_links, fragment_close, venue_sentence, has_venue,
    note_sentence, auxiliary_links, title_of, year_of, field.
  rewrite custom_note_truthy.
  destruct (note_populated e);
    destruct (truthy (container_of e) || truthy (volume_of e)
              || truthy (pages_of e));
    rewrite <- ?app_assoc; try rewrite app_nil_l; reflexivity.
Qed.

(** ** The order on strings *)

Lemma str_lt_irrefl (a : pystr) : str_lt a a = false.
Proof.
  induction a as [|x a IH]; [reflexivity|].
  cbn [str_lt]. rewrite N.ltb_irrefl, N.eqb_refl, IH. reflexivity.
Qed.

Lemma str_lt_cons (x y : N) (a b : pystr) :
  str_lt (x :: a) (y :: b) = true <-> x < y \/ (x = y /\ str_lt a b = true).
Proof.
  cbn [str_lt]. rewrite orb_true_iff, andb_true_iff, N.ltb_lt, N.eqb_eq.
  reflexivity.
Qed.

Lemma str_lt_trans (a b c : pystr) :
  str_lt a b = true -> str_lt b c = true -> str_lt a c = true.
Proof.
  revert b c. induction a as [|x a IH]; intros [|y b] [|z c]; try discriminate;
    try reflexivity.
  rewrite !str_lt_cons. intros [Hxy|[-> Hab]] [Hyz|[-> Hbc]].
  - left. lia.
  - left. assumption.
  - left. assumption.
  - right. split; [reflexivity|]. eapply IH; eassumption.
Qed.

Lemma str_lt_asym (a b : pystr) : str_lt a b = true -> str_lt b a = false.
Proof.
  intros Hab. destruct (str_lt b a) eqn:Hba; [|reflexivity].
  pose proof (str_lt_trans _ _ _ Hab Hba) as H.
  rewrite str_lt_irrefl in H. discriminate.
Qed.

Lemma str_lt_connected (a b : pystr) :
  str_lt a b = false -> str_lt b a = false -> a = b.
Proof.
  revert b. induction a as [|x a IH]; intros [|y b]; try discriminate;
    [reflexivity|].
  cbn [str_lt]. rewrite !orb_false_iff, !andb_false_iff, !N.ltb_ge, !N.eqb_neq.
  intros [Hxy Ha] [Hyx Hb].
  assert (x = y) by lia. subst y. f_equal.
  apply IH.
  - destruct Ha; [congruence|assumption].
  - destruct Hb; [congruence|assumption].
Qed.

Lemma str_lt_total (a b : pystr) : a <> b -> str_lt a b = negb (str_lt b a).
Proof.
  intros Hne. destruct (str_lt b a) eqn:Hba.
  - apply str_lt_asym. assumption.
  - destruct (str_lt a b) eqn:Hab; [reflexivity|].
    exfalso. apply Hne. apply str_lt_connected; assumption.
Qed.

(** [pair_lt] is the lexicographic product: it implies order or equality
    of the first components. *)
Lemma pair_lt_fst (a b : pystr * pystr) :
  pair_lt a b = true -> str_lt (fst b) (fst a) = false.
Proof.
  unfold pair_lt. case_bool_decide as Heq.
  - intros _. rewrite Heq. apply str_lt_irrefl.
  - apply str_lt_asym.
Qed.

Lemma pair_lt_false_fst (a b : pystr * pystr) :
  pair_lt a b = false -> str_lt (fst a) (fst b) = false.
Proof.
  unfold pair_lt. case_bool_decide as Heq.
  - intros _. rewrite Heq. apply str_lt_irrefl.
  - trivial.
Qed.

(** ** Stable sorting, without the decoration *)

Section SortByFacts.

Context {A K : Type}.
Variable lt : K -> K -> bool.
Variable f : A -> K.

Lemma insert_keyed_decorated (x : A) (l : list A) :
  insert_keyed lt (f x, x) (List.map (fun y => (f y, y)) l)
  = List.map (fun y => (f y, y)) (insert_by lt f x l).
Proof.
  induction l as [|y r IH]; [reflexivity|].
  cbn [List.map insert_keyed insert_by fst].
  destruct (lt (f y) (f x)); cbn [List.map]; [rewrite IH|]; reflexivity.
Qed.

Lemma sort_keyed_decorated (l : list A) :
  sort_keyed lt (List.combine (List.map f l) l)
  = List.map (fun y => (f y, y)) (sort_by lt f l).
Proof.
  induction l as [|x r IH]; [reflexivity|].
  cbn [List.map List.combine]. unfold sort_keyed, sort_by in *.
  cbn [List.fold_right]. rewrite IH. apply insert_keyed_decorated.
Qed.

(** With a key that raises nowhere on [l], [sorted] is [sort_by]. *)
Lemma sorted_total (key : A -> result K) (l : list A) :
  (forall x, In x l -> key x = Ok (f x)) ->
  sorted lt key l = Ok (sort_by lt f l).
Proof.
  intros Hkey. unfold sorted.
  assert (Hks : keys_of key l = Ok (List.map f l)).
  { induction l as [|x r IH]; [reflexivity|].
    cbn [keys_of List.map]. rewrite (Hkey x (or_introl eq_refl)).
    rewrite IH; [reflexivity|]. intros y Hy. apply Hkey. right. assumption. }
  rewrite Hks, sort_keyed_decorated, List.map_map. cbn [snd].
  rewrite List.map_id. reflexivity.
Qed.

Lemma sorted_raise (key : A -> result K) (l : list A) (x : exn) :
  keys_of key l = Raise x -> sorted lt key l = Raise x.
Proof. intros H. unfold sorted. rewrite H. reflexivity. Qed.

Lemma insert_by_In (x y : A) (l : list A) :
  In y (insert_by lt f x l) <-> y = x \/ In y l.
Proof.
  induction l as [|z r IH]; cbn [insert_by In]; [intuition congruence|].
  destruct (lt (f z) (f x)); cbn [In]; [rewrite IH|]; intuition congruence.
Qed.

Lemma sort_by_In (y : A) (l : list A) : In y (sort_by lt f l) <-> In y l.
Proof.
  induction l as [|x r IH]; [reflexivity|].
  change (sort_by lt f (x :: r)) with (insert_by lt f x (sort_by lt f r)).
  rewrite insert_by_In, IH. cbn [In]. intuition congruence.
Qed.

(** The sort only rearranges. *)
Lemma insert_by_Permutation (x : A) (l : list A) :
  Permutation (insert_by lt f x l) (x :: l).
Proof.
  induction l as [|y r IH]; cbn [insert_by]; [reflexivity|].
  destruct (lt (f y) (f x)); [|reflexivity].
  rewrite IH. apply perm_swap.
Qed.

Lemma sort_by_Permutation (l : list A) : Permutation (sort_by lt f l) l.
Proof.
  induction l as [|x r IH]; [reflexivity|].
  change (sort_by lt f (x :: r)) with (insert_by lt f x (sort_by lt f r)).
  rewrite insert_by_Permutation, IH. reflexivity.
Qed.

End SortByFacts.

(** ** Two stable passes are one pass on the pair *)

Section TwoPass.

Context {A : Type}.
Variables f1 f2 : A -> pystr.

Let key12 (x : A) : pystr * pystr := (f2 x, f1 x).

Lemma pair_lt_key12 (y x : A) :
  pair_lt (key12 y) (key12 x) =
  if bool_decide (f2 y = f2 x) then str_lt (f1 y) (f1 x)
  else str_lt (f2 y) (f2 x).
Proof. reflexivity. Qed.

(** Where the first key of [x] is minimal, inserting by the second key
    and inserting by the pair agree. *)
Lemma insert_by_agree (x : A) (s : list A) :
  Forall (not_below f1 x) s ->
  insert_by str_lt f2 x s = insert_by pair_lt key12 x s.
Proof.
  induction 1 as [|y r Hy _ IH]; [reflexivity|].
  cbn [insert_by]. rewrite pair_lt_key12, IH. unfold not_below in Hy.
  case_bool_decide as Heq; [|reflexivity].
  rewrite Hy, Heq, str_lt_irrefl. reflexivity.
Qed.

(** An element with a smaller first key is inserted by the second key
    independently of an insertion by the pair. *)
Lemma insert_by_commute (z x : A) (s : list A) :
  str_lt (f1 z) (f1 x) = true ->
  insert_by str_lt f2 z (insert_by pair_lt key12 x s)
  = insert_by pair_lt key12 x (insert_by str_lt f2 z s).
Proof.
  intros Hzx.
  assert (Hzx12 : pair_lt (key12 z) (key12 x) = negb (str_lt (f2 x) (f2 z))).
  { rewrite pair_lt_key12. case_bool_decide as Heq.
    - rewrite Hzx, Heq, str_lt_irrefl. reflexivity.
    - apply str_lt_total. assumption. }
  induction s as [|y r IH].
  - cbn [insert_by]. rewrite Hzx12.
    destruct (str_lt (f2 x) (f2 z)); reflexivity.
  - cbn [insert_by].
    destruct (pair_lt (key12 y) (key12 x)) eqn:Hyx;
      destruct (str_lt (f2 y) (f2 z)) eqn:Hyz; cbn [insert_by];
      rewrite ?Hyx, ?Hyz.
    + rewrite IH. reflexivity.
    + (* f2 z <= f2 y <= f2 x *)
      rewrite Hzx12.
      assert (Hxz : str_lt (f2 x) (f2 z) = false).
      { destruct (str_lt (f2 x) (f2 z)) eqn:Hxz; [|reflexivity].
        apply pair_lt_fst in Hyx. cbn [key12 fst] in Hyx.
        destruct (str_lt (f2 y) (f2 x)) eqn:Hyx2.
        - rewrite (str_lt_trans _ _ _ Hyx2 Hxz) in Hyz. discriminate.
        - rewrite (str_lt_connected _ _ Hyx2 Hyx) in Hyz.
          rewrite Hxz in Hyz. discriminate. }
      rewrite Hxz. cbn [negb insert_by]. rewrite ?Hyx. reflexivity.
    + (* f2 x <= f2 y < f2 z *)
      assert (Hxz : str_lt (f2 x) (f2 z) = true).
      { apply pair_lt_false_fst in Hyx. cbn [key12 fst] in Hyx.
        destruct (str_lt (f2 x) (f2 y)) eqn:Hxy.
        - eapply str_lt_trans; eassumption.
        - rewrite <- (str_lt_connected _ _ Hxy Hyx) in Hyz. assumption. }
      rewrite Hxz. cbn [insert_by]. rewrite ?Hyz. reflexivity.
    + rewrite Hzx12. destruct (str_lt (f2 x) (f2 z)); cbn [negb insert_by];
        rewrite ?Hyx, ?Hyz; reflexivity.
Qed.

Lemma insert_by_sorted_for (x : A) (m : list A) :
  sorted_for f1 m -> sorted_for f1 (insert_by str_lt f1 x m).
Proof.
  induction 1 as [|y r Hy Hr IH]; cbn [insert_by].
  - repeat constructor.
  - destruct (str_lt (f1 y) (f1 x)) eqn:Hyx.
    + constructor; [|assumption].
      apply List.Forall_forall. intros w Hw. apply insert_by_In in Hw as [->|Hw].
      * apply str_lt_asym. assumption.
      * rewrite List.Forall_forall in Hy. apply Hy. assumption.
    + constructor; [|constructor; assumption].
      constructor; [assumption|].
      rewrite List.Forall_forall in *. intros w Hw. specialize (Hy w Hw).
      unfold not_below in *.
      destruct (str_lt (f1 w) (f1 x)) eqn:Hwx; [|reflexivity].
      destruct (str_lt (f1 x) (f1 y)) eqn:Hxy.
      * rewrite (str_lt_trans _ _ _ Hwx Hxy) in Hy. discriminate.
      * rewrite (str_lt_connected _ _ Hxy Hyx) in Hwx. congruence.
Qed.

Lemma sort_by_sorted_for (l : list A) : sorted_for f1 (sort_by str_lt f1 l).
Proof.
  induction l as [|x r IH]; [constructor|].
  apply insert_by_sorted_for. assumption.
Qed.

Lemma sort_by_insert_first (x : A) (m : list A) :
  sorted_for f1 m ->
  sort_by str_lt f2 (insert_by str_lt f1 x m)
  = insert_by pair_lt key12 x (sort_by str_lt f2 m).
Proof.
  induction 1 as [|y r Hy Hr IH]; [reflexivity|].
  cbn [insert_by]. destruct (str_lt (f1 y) (f1 x)) eqn:Hyx.
  - change (sort_by str_lt f2 (y :: insert_by str_lt f1 x r))
      with (insert_by str_lt f2 y (sort_by str_lt f2 (insert_by str_lt f1 x r))).
    rewrite IH. rewrite insert_by_commute by assumption. reflexivity.
  - change (sort_by str_lt f2 (x :: y :: r))
      with (insert_by str_lt f2 x (sort_by str_lt f2 (y :: r))).
    apply insert_by_agree.
    apply List.Forall_forall. intros w Hw. apply sort_by_In in Hw.
    destruct Hw as [<-|Hw]; [assumption|].
    rewrite List.Forall_forall in Hy. specialize (Hy w Hw). unfold not_below in *.
    destruct (str_lt (f1 w) (f1 x)) eqn:Hwx; [|reflexivity].
    destruct (str_lt (f1 x) (f1 y)) eqn:Hxy.
    + rewrite (str_lt_trans _ _ _ Hwx Hxy) in Hy. discriminate.
    + rewrite (str_lt_connected _ _ Hxy Hyx) in Hwx. congruence.
Qed.

Lemma two_pass_sort_by (l : list A) :
  sort_by str_lt f2 (sort_by str_lt f1 l) = sort_by pair_lt key12 l.
Proof.
  induction l as [|x r IH]; [reflexivity|].
  change (sort_by str_lt f1 (x :: r))
    with (insert_by str_lt f1 x (sort_by str_lt f1 r)).
  rewrite sort_by_insert_first by apply sort_by_sorted_for.
  rewrite IH. reflexivity.
Qed.

End TwoPass.

(** ** get_author_string *)

(** What [get_author_string] returns: the author string where every piece
    has a surname, [IndexError] otherwise. *)
Lemma get_author_string_run (e : entry) :
  get_author_string e =
  (e, match author_string e with
      | Some s => Ok s
      | None => Raise IndexError
      end).
Proof.
  unfold get_author_string, author_string, author_string_with, field,
    author_pieces.
  run_block. destruct (e !! u "author") as [author|] eqn:Hauthor;
    cbv beta iota; [|reflexivity].
  rewrite ?Hauthor; cbv beta iota.
  rewrite author_loop_surnames. cbn [app].
  destruct (all_some _) as [names|]; [|reflexivity].
  destruct names as [|a [|b rest]]; try reflexivity.
  change (1 <? List.length (a :: b :: rest))%nat with true. cbv iota.
  unfold index_last.
  destruct (last (a :: b :: rest)) as [final|] eqn:Hlast.
  - rewrite (join_but_last a b rest final Hlast). reflexivity.
  - exfalso. clear -Hlast. revert a b Hlast.
    induction rest as [|c r IH]; intros a b H; [discriminate|].
    apply (IH b c). exact H.
Qed.

(** C3, as amended. For every record whose author field, if it has one,
    splits on " and " into pieces that each have a surname, the author
    string is the surnames joined with ", " between all but the last and
    " & " before the last; the surname of a trimmed piece is the trimmed
    text before its first comma if it has a comma, and its last
    whitespace-delimited token otherwise. Without an author field the
    author string is empty; a single surname is returned as it is. *)
Theorem author_string_of_record (e : entry) (s : pystr) :
  author_string e = Some s ->
  get_author_string e = (e, Ok s).
Proof.
  intros H. rewrite get_author_string_run, H. reflexivity.
Qed.

(** The three authors of the specification's example. *)
Lemma author_string_of_record_witness :
  author_string three_authors = Some (u "Doe, Roe & Lee")
  /\ get_author_string three_authors = (three_authors, Ok (u "Doe, Roe & Lee")).
Proof.
  split; [vm_compute; reflexivity|].
  apply author_string_of_record. vm_compute. reflexivity.
Defined.

(** C3 as the specification words it: the surname of a piece with a comma
    is the text before the comma as it stands. On "Doe , Jane" that text
    ends with a space, which [get_author_string] trims. *)
Lemma claimed_author_string_differs :
  claimed_author_string spaced_comma = Some (u "Doe  & Roe")
  /\ eval get_author_string spaced_comma = Ok (u "Doe & Roe")
  /\ ~ (forall e s, claimed_author_string e = Some s ->
                    eval get_author_string e = Ok s).
Proof.
  assert (H1 : claimed_author_string spaced_comma = Some (u "Doe  & Roe"))
    by (vm_compute; reflexivity).
  assert (H2 : eval get_author_string spaced_comma = Ok (u "Doe & Roe"))
    by (vm_compute; reflexivity).
  repeat split; try assumption.
  intros H. specialize (H _ _ H1). rewrite H2 in H. vm_compute in H.
  discriminate.
Qed.

(** C10. An author field with an empty or blank piece makes
    [get_author_string] raise [IndexError]: the empty field, a trailing
    separator, two separators in a row, a blank field. The exception goes
    through [format_bibtex_entry]. *)
Theorem get_author_string_raises :
  eval get_author_string empty_author = Raise IndexError
  /\ eval get_author_string trailing_separator = Raise IndexError
  /\ eval get_author_string double_separator = Raise IndexError
  /\ eval get_author_string blank_author = Raise IndexError
  /\ eval format_bibtex_entry empty_author = Raise IndexError.
Proof. repeat split; vm_compute; reflexivity. Qed.

Lemma format_bibtex_entry_eval (e : entry) :
  eval format_bibtex_entry e =
  match eval get_author_string e with
  | Raise x => Raise x
  | Ok author_str => Ok (fragment e author_str)
  end.
Proof. unfold eval at 1. rewrite format_bibtex_entry_run. reflexivity. Qed.

(** ** The link of the title *)

(** C2, as amended. The link is the url field when that field starts with
    http or ftp; failing that, the constructed https://doi.org/<doi> when
    there is a doi field and the placeholder otherwise, except that without
    a url field a doi that itself starts with http or ftp is used as it
    stands, and that a url or doi equal to the placeholder is kept. *)
Theorem primary_link_priority (e : entry) :
  eval resolve_link e = Ok (primary_link e)
  /\ eval format_bibtex_entry e =
     match eval get_author_string e with
     | Raise x => Raise x
     | Ok author_str =>
         Ok (html_head author_str (year_of e) (primary_link e) (title_of e)
             ++ links_html (auxiliary_links e)
             ++ note_sentence (note_populated e) (custom_note e)
             ++ venue_sentence e ++ fragment_close)
     end
  /\ eval resolve_link url_and_doi = Ok (u "https://x.org/p")
  /\ eval resolve_link only_doi = Ok (u "https://doi.org/10.1/x")
  /\ eval resolve_link ∅ = Ok (u "#")
  /\ eval resolve_link not_a_link = Ok (u "#").
Proof.
  split; [|split].
  - unfold eval. rewrite resolve_link_run. reflexivity.
  - rewrite format_bibtex_entry_eval.
    destruct (eval get_author_string e); [|reflexivity].
    unfold fragment, fragment_links. rewrite <- !app_assoc. reflexivity.
  - repeat split; vm_compute; reflexivity.
Qed.

(** C2 as the specification words it. With only a doi field holding a
    URL, the words give the DOI prefix in front of it; the formatter uses
    the doi as it stands. *)
Lemma claimed_primary_link_differs :
  claimed_primary_link doi_is_url = u "https://doi.org/https://doi.org/10.1/x"
  /\ eval resolve_link doi_is_url = Ok (u "https://doi.org/10.1/x")
  /\ eval resolve_link doi_is_url <> Ok (claimed_primary_link doi_is_url).
Proof.
  split; [vm_compute; reflexivity|].
  split; [vm_compute; reflexivity|].
  vm_compute. discriminate.
Qed.

(** A url field equal to the placeholder hides the doi. *)
Lemma placeholder_url_kept :
  eval resolve_link placeholder_url = Ok (u "#")
  /\ claimed_primary_link placeholder_url = u "https://doi.org/10.1/x".
Proof. split; vm_compute; reflexivity. Qed.

(** ** The custom note *)

Lemma custom_note_enclosed (e : entry) :
  custom_note e = if enclosed (note_of e) then note_of e else [].
Proof.
  unfold custom_note, note_populated.
  destruct (enclosed (note_of e)) eqn:H; [|reflexivity].
  apply strip_enclosed. assumption.
Qed.

(** C4, as amended. The custom note is populated exactly when the note
    field as it stands, untrimmed, starts with '(' and ends with ')'; it is
    then the field itself, rendered in <strong> right after the links and
    followed by a period; otherwise a bare period follows the links. *)
Theorem custom_note_rendering (e : entry) :
  eval resolve_note e = Ok (custom_note e)
  /\ truthy (custom_note e) = enclosed (note_of e)
  /\ custom_note e = (if enclosed (note_of e) then note_of e else [])
  /\ eval format_bibtex_entry e =
     match eval get_author_string e with
     | Raise x => Raise x
     | Ok author_str =>
         Ok (fragment_links e author_str
             ++ (if enclosed (note_of e)
                 then u " <strong>" ++ note_of e ++ u "</strong>."
                 else u ".")
             ++ venue_sentence e ++ fragment_close)
     end
  /\ eval format_bibtex_entry alexnet_note
     = Ok (fragment_links alexnet_note []
           ++ u " <strong>(AlexNet)</strong>." ++ fragment_close)
  /\ eval format_bibtex_entry errata_note
     = Ok (fragment_links errata_note [] ++ u "." ++ fragment_close).
Proof.
  split; [|split; [|split; [|split]]].
  - unfold eval. rewrite resolve_note_run. reflexivity.
  - apply custom_note_truthy.
  - apply custom_note_enclosed.
  - rewrite format_bibtex_entry_eval.
    destruct (eval get_author_string e); [|reflexivity].
    unfold fragment, note_sentence. rewrite custom_note_enclosed.
    unfold note_populated. destruct (enclosed (note_of e)); reflexivity.
  - split; vm_compute; reflexivity.
Qed.

(** C4 as the specification words it, on the trimmed text: a note with a
    space in front of its parenthesis would be populated, and the formatter
    renders a bare period. *)
Lemma claimed_note_populated_differs :
  claimed_note_populated padded_note = true
  /\ eval resolve_note padded_note = Ok []
  /\ eval format_bibtex_entry padded_note
     = Ok (fragment_links padded_note [] ++ u "." ++ fragment_close).
Proof. repeat split; vm_compute; reflexivity. Qed.

(** ** The record is only read *)

(** C9. Formatting a record leaves it as it was: the formatter, and the
    author-string function it calls, end in the state they started in,
    whether they return or raise. *)
Theorem format_leaves_record (e : entry) :
  fst (format_bibtex_entry e) = e /\ fst (get_author_string e) = e.
Proof.
  split.
  - apply format_bibtex_entry_reads.
  - apply get_author_string_reads.
Qed.

(** ** Auxiliary links *)

Lemma leading_present_seq (e : entry) (k : nat) :
  forall a g : nat,
    (a <= g <= a + k)%nat ->
    (forall m, (a <= m < g)%nat -> has_url e m = true) ->
    ((g < a + k)%nat -> has_url e g = false) ->
    leading_present e (seq a k) = seq a (g - a).
Proof.
  induction k as [|k IH]; intros a g Hg Hbelow Hgap.
  - replace (g - a)%nat with 0%nat by lia. reflexivity.
  - cbn [seq leading_present]. destruct (Nat.eq_dec g a) as [->|Hne].
    + rewrite Hgap by lia. rewrite Nat.sub_diag. reflexivity.
    + rewrite Hbelow by lia.
      rewrite (IH (S a) g) by (try lia; intros; first [apply Hbelow|apply Hgap]; lia).
      replace (g - a)%nat with (S (g - S a)) by lia. reflexivity.
Qed.

(** Every record has a first gap, 31 standing for "none up to 30". *)
Lemma first_gap_exists (e : entry) :
  exists g : nat,
    (2 <= g <= 31)%nat
    /\ (forall m, (2 <= m < g)%nat -> has_url e m = true)
    /\ ((g <= 30)%nat -> has_url e g = false).
Proof.
  assert (H : forall k a, exists g : nat,
             (a <= g <= a + k)%nat
             /\ (forall m, (a <= m < g)%nat -> has_url e m = true)
             /\ ((g < a + k)%nat -> has_url e g = false)).
  { induction k as [|k IH]; intros a.
    - exists a. repeat split; try lia; intros; exfalso; lia.
    - destruct (has_url e a) eqn:Ha.
      + destruct (IH (S a)) as (g & Hg & Hbelow & Hgap).
        exists g. repeat split; try lia.
        * intros m Hm. destruct (Nat.eq_dec m a) as [->|]; [assumption|].
          apply Hbelow. lia.
        * intros. apply Hgap. lia.
      + exists a. repeat split; try lia; try (intros; exfalso; lia).
        intros _. assumption. }
  destruct (H 29%nat 2%nat) as (g & Hg & Hbelow & Hgap).
  exists g. repeat split; try lia; [exact Hbelow|]. intros. apply Hgap. lia.
Qed.

Lemma links_of_agree (e e' : entry) (l : list nat) :
  (forall m, In m l ->
     e' !! url_key m = e !! url_key m
     /\ e' !! url_note_key m = e !! url_note_key m) ->
  List.map (fun n => (n, link_url e' n, link_label e' n)) l
  = List.map (fun n => (n, link_url e n, link_label e n)) l.
Proof.
  intros H. apply List.map_ext_in. intros n Hn.
  destruct (H n Hn) as [Hu Hl]. unfold link_url, link_label.
  rewrite Hu, Hl. reflexivity.
Qed.

Lemma has_url_lookup (e : entry) (n : nat) :
  has_url e n = true <-> e !! (u "url_" ++ str n) <> None.
Proof.
  unfold has_url, url_key. destruct (e !! (u "url_" ++ str n)).
  - split; [discriminate|reflexivity].
  - split; [discriminate|]. intros H. exfalso. apply H. reflexivity.
Qed.

(** The markup of the links, written out. *)
Lemma links_html_markup (e : entry) (l : list nat) :
  links_html (List.map (fun n => (n, link_url e n, link_label e n)) l)
  = List.concat
      (List.map
         (fun n =>
            u " <a href=" ++ [34]
            ++ match e !! (u "url_" ++ str n) with
               | Some url => url
               | None => []
               end
            ++ [34] ++ u " class=" ++ [34] ++ u "external" ++ [34] ++ u ">["
            ++ match e !! (u "url_note_" ++ str n) with
               | Some label => label
               | None => u "link " ++ str n
               end
            ++ u "]</a>")
         l).
Proof.
  unfold links_html. rewrite List.map_map. f_equal.
Qed.

(** C5. With [g] the first index from 2 to 30 that has no url field (31
    if there is none), the loop appends to the fragment, for each index
    [n] from 2 to [g - 1] in order and for no other, the markup
    [ <a href="url_<n>" class="external">[label]</a>] where the label is
    the url_note_<n> field or "link <n>"; these are [g - 2] links, at most
    29; and a record that agrees on the fields below [g] and also lacks
    url_<g> gets the same markup, whatever fields it has after the gap. *)
Theorem auxiliary_links_stop_at_gap (e : entry) (g : nat) :
  (2 <= g <= 31)%nat ->
  (forall m, (2 <= m < g)%nat -> e !! (u "url_" ++ str m) <> None) ->
  ((g <= 30)%nat -> e !! (u "url_" ++ str g) = None) ->
  (forall html,
     links_loop range_2_31 html e
     = (e,
        Ok (html
            ++ List.concat
                 (List.map
                    (fun n =>
                       u " <a href=" ++ [34]
                       ++ match e !! (u "url_" ++ str n) with
                          | Some url => url
                          | None => []
                          end
                       ++ [34] ++ u " class=" ++ [34] ++ u "external" ++ [34]
                       ++ u ">["
                       ++ match e !! (u "url_note_" ++ str n) with
                          | Some label => label
                          | None => u "link " ++ str n
                          end
                       ++ u "]</a>")
                    (seq 2 (g - 2))))))
  /\ List.map (fun l => fst (fst l)) (auxiliary_links e) = seq 2 (g - 2)
  /\ (List.length (auxiliary_links e) <= 29)%nat
  /\ (forall e' : entry,
        (forall m, (2 <= m < g)%nat ->
           e' !! (u "url_" ++ str m) = e !! (u "url_" ++ str m)
           /\ e' !! (u "url_note_" ++ str m) = e !! (u "url_note_" ++ str m)) ->
        ((g <= 30)%nat -> e' !! (u "url_" ++ str g) = None) ->
        forall html,
          eval (links_loop range_2_31 html) e'
          = eval (links_loop range_2_31 html) e).
Proof.
  intros Hg Hbelow Hgap.
  assert (Hlead : leading_present e range_2_31 = seq 2 (g - 2)).
  { apply leading_present_seq; [lia| |].
    - intros m Hm. apply has_url_lookup. apply Hbelow. assumption.
    - intros Hlt. unfold has_url, url_key. rewrite Hgap by lia. reflexivity. }
  assert (Hrun : forall html,
            links_loop range_2_31 html e
            = (e, Ok (html ++ links_html
                        (List.map (fun n => (n, link_url e n, link_label e n))
                           (seq 2 (g - 2)))))).
  { intros html. rewrite links_loop_run, Hlead. reflexivity. }
  split; [|split; [|split]].
  - intros html. rewrite Hrun, links_html_markup. reflexivity.
  - unfold auxiliary_links. rewrite Hlead, List.map_map. cbn [fst].
    apply List.map_id.
  - unfold auxiliary_links. rewrite Hlead, List.length_map, List.length_seq.
    lia.
  - intros e' Hagree Hgap' html.
    assert (Hlead' : leading_present e' range_2_31 = seq 2 (g - 2)).
    { apply leading_present_seq; [lia| |].
      - intros m Hm. apply has_url_lookup.
        destruct (Hagree m Hm) as [-> _]. apply Hbelow. assumption.
      - intros Hlt. unfold has_url, url_key. rewrite Hgap' by lia.
        reflexivity. }
    unfold eval. rewrite Hrun, links_loop_run, Hlead'. cbn [snd].
    do 2 f_equal. f_equal. apply links_of_agree.
    intros m Hm. apply List.in_seq in Hm. apply Hagree. lia.
Qed.

(** A record with url_2 and url_4 but no url_3: the gap is at 3 and there
    is exactly one link, with the label "link 2". *)
Lemma auxiliary_links_stop_at_gap_witness :
  links_loop range_2_31 [] links_2_and_4
  = (links_2_and_4,
     Ok (u " <a href=" ++ [34] ++ u "https://a.org" ++ [34] ++ u " class="
         ++ [34] ++ u "external" ++ [34] ++ u ">[link 2]</a>"))
  /\ List.map (fun l => fst (fst l)) (auxiliary_links links_2_and_4) = [2%nat].
Proof.
  destruct (auxiliary_links_stop_at_gap links_2_and_4 3)
    as (Hrun & Hidx & _ & _).
  - lia.
  - intros m Hm. assert (m = 2%nat) as -> by lia. vm_compute. discriminate.
  - intros _. vm_compute. reflexivity.
  - split; [|exact Hidx]. rewrite Hrun. vm_compute. reflexivity.
Defined.

(** ** The venue line *)

Lemma replace_hyphens_pair (t : pystr) :
  replace (u "--") en_dash (hyphen :: hyphen :: t)
  = 8211 :: replace (u "--") en_dash t.
Proof. reflexivity. Qed.

Lemma replace_hyphens_other (c : N) (t : pystr) :
  startswith (u "--") (c :: t) = false ->
  replace (u "--") en_dash (c :: t) = c :: replace (u "--") en_dash t.
Proof.
  intros H. unfold replace. cbn [replace_go]. rewrite H. reflexivity.
Qed.

Lemma startswith_hyphens (s : pystr) :
  startswith (u "--") s = true -> exists t, s = hyphen :: hyphen :: t.
Proof.
  change (u "--") with [hyphen; hyphen].
  destruct s as [|a [|b t]]; cbn [startswith]; try discriminate.
  - rewrite andb_false_r. discriminate.
  - rewrite andb_true_r. intros H. apply andb_true_iff in H as [Ha Hb].
    apply N.eqb_eq in Ha, Hb. subst. eauto.
Qed.

(** The result starts with a hyphen only where the input starts with a
    single one. *)
Lemma replace_hyphens_head (s : pystr) :
  startswith [hyphen] (replace (u "--") en_dash s) = true ->
  startswith [hyphen] s = true /\ startswith (u "--") s = false.
Proof.
  destruct s as [|c t]; [discriminate|].
  destruct (startswith (u "--") (c :: t)) eqn:Hdd.
  - apply startswith_hyphens in Hdd as [t' Heq]. rewrite Heq.
    rewrite replace_hyphens_pair. discriminate.
  - rewrite replace_hyphens_other by assumption.
    cbn [startswith]. intros H. split; [assumption|reflexivity].
Qed.

(** No double hyphen is left. *)
Lemma replace_hyphens_none_left (s : pystr) :
  contains_str (u "--") (replace (u "--") en_dash s) = false.
Proof.
  remember (List.length s) as n eqn:Hn.
  assert (Hle : (List.length s <= n)%nat) by lia. clear Hn.
  revert s Hle. induction n as [|n IH]; intros s Hle.
  - destruct s; [reflexivity|simpl in Hle; lia].
  - destruct s as [|c t]; [reflexivity|].
    destruct (startswith (u "--") (c :: t)) eqn:Hdd.
    + apply startswith_hyphens in Hdd as [t' Heq]. rewrite Heq in *.
      rewrite replace_hyphens_pair.
      cbn [contains_str]. rewrite IH by (simpl in Hle; lia). reflexivity.
    + rewrite replace_hyphens_other by assumption.
      cbn [contains_str]. rewrite IH by (simpl in Hle; lia).
      rewrite orb_false_r.
      destruct (startswith (u "--") (c :: replace (u "--") en_dash t)) eqn:Hout;
        [|reflexivity].
      exfalso.
      change (u "--") with [hyphen; hyphen] in Hout. cbn [startswith] in Hout.
      apply andb_true_iff in Hout as [Hc Hrest]. apply N.eqb_eq in Hc. subst c.
      apply replace_hyphens_head in Hrest as [Ht _].
      apply startswith_single in Ht as [t' ->].
      vm_compute in Hdd. discriminate.
Qed.

Lemma dash_pairs_cons (c d : N) (t : pystr) :
  dash_pairs (c :: d :: t)
  = if (c =? 45) && (d =? 45) then 8211 :: dash_pairs t
    else c :: dash_pairs (d :: t).
Proof. reflexivity. Qed.

(** The replacement of the code is the replacement of hyphen pairs by
    en-dashes. *)
Lemma replace_dash_pairs (s : pystr) :
  replace (u "--") en_dash s = dash_pairs s.
Proof.
  remember (List.length s) as n eqn:Hn.
  assert (Hle : (List.length s <= n)%nat) by lia. clear Hn.
  revert s Hle. induction n as [|n IH]; intros s Hle.
  - destruct s; [reflexivity|simpl in Hle; lia].
  - destruct s as [|c [|d t]]; [reflexivity| |].
    { rewrite replace_hyphens_other; [reflexivity|].
      change (u "--") with [45; 45]. cbn [startswith]. apply andb_false_r. }
    rewrite dash_pairs_cons.
    destruct ((c =? 45) && (d =? 45)) eqn:Hcd.
    + apply andb_true_iff in Hcd as [Hc Hd].
      apply N.eqb_eq in Hc, Hd. subst c d.
      change (replace (u "--") en_dash (45 :: 45 :: t))
        with (8211 :: replace (u "--") en_dash t).
      rewrite IH by (cbn [List.length] in *; lia). reflexivity.
    + rewrite replace_hyphens_other.
      * rewrite IH by (cbn [List.length] in *; lia). reflexivity.
      * change (u "--") with [45; 45]. cbn [startswith].
        rewrite andb_true_r, (N.eqb_sym 45 c), (N.eqb_sym 45 d). assumption.
Qed.

(** Where no en-dash was there before, putting the hyphen pairs back
    gives the text again: nothing is lost and nothing else is changed. *)
Lemma undash_dash_pairs (s : pystr) :
  forallb (fun c => negb (c =? 8211)) s = true ->
  undash (dash_pairs s) = s.
Proof.
  remember (List.length s) as n eqn:Hn.
  assert (Hle : (List.length s <= n)%nat) by lia. clear Hn.
  revert s Hle. induction n as [|n IH]; intros s Hle Hs.
  - destruct s; [reflexivity|simpl in Hle; lia].
  - destruct s as [|c [|d t]]; [reflexivity| |].
    + cbn [forallb] in Hs. apply andb_true_iff in Hs as [Hc _].
      unfold undash. cbn [dash_pairs List.flat_map].
      apply negb_true_iff in Hc. rewrite Hc. reflexivity.
    + cbn [forallb] in Hs. apply andb_true_iff in Hs as [Hc Hs].
      rewrite dash_pairs_cons. destruct ((c =? 45) && (d =? 45)) eqn:Hcd.
      * apply andb_true_iff in Hcd as [Hc' Hd'].
        apply N.eqb_eq in Hc', Hd'. subst c d.
        apply andb_true_iff in Hs as [_ Hs].
        unfold undash in *. cbn [List.flat_map].
        change (8211 =? 8211) with true. cbv iota.
        rewrite IH by (try assumption; cbn [List.length] in *; lia). reflexivity.
      * unfold undash in *. cbn [List.flat_map].
        apply negb_true_iff in Hc. rewrite Hc.
        rewrite IH by (try assumption; cbn [List.length] in *; lia). reflexivity.
Qed.

(** C7. At most one container is shown, journal before booktitle (as "In
    <booktitle>") before publisher, each in <em>; a volume appends ", Vol.
    <volume>"; pages append ", pp. <pages>" in which every pair of hyphens
    has become one en-dash (U+2013), none being left, the text being
    otherwise unchanged; the venue sentence is in the fragment exactly
    when one of the three parts is not empty, that is when one of the five
    fields is present. *)
Theorem venue_line (e : entry) :
  eval resolve_container e
  = Ok (match field "journal" e, field "booktitle" e, field "publisher" e with
        | Some journal, _, _ => u "<em>" ++ journal ++ u "</em>"
        | None, Some booktitle, _ => u "<em>In " ++ booktitle ++ u "</em>"
        | None, None, Some publisher => u "<em>" ++ publisher ++ u "</em>"
        | None, None, None => []
        end)
  /\ eval resolve_volume e
     = Ok (match field "volume" e with
           | Some volume => u ", Vol. " ++ volume
           | None => []
           end)
  /\ eval resolve_pages e
     = Ok (match field "pages" e with
           | Some pages => u ", pp. " ++ dash_pairs pages
           | None => []
           end)
  /\ (forall container volume pages,
        eval resolve_container e = Ok container ->
        eval resolve_volume e = Ok volume ->
        eval resolve_pages e = Ok pages ->
        eval format_bibtex_entry e =
        match eval get_author_string e with
        | Raise x => Raise x
        | Ok author_str =>
            Ok (fragment_links e author_str
                ++ note_sentence (note_populated e) (custom_note e)
                ++ (if truthy container || truthy volume || truthy pages
                    then u " " ++ container ++ volume ++ pages ++ u "."
                    else [])
                ++ fragment_close)
        end
        /\ truthy container || truthy volume || truthy pages
           = present (field "journal" e) || present (field "booktitle" e)
             || present (field "publisher" e) || present (field "volume" e)
             || present (field "pages" e))
  /\ (forall pages, contains_str [45; 45] (dash_pairs pages) = false)
  /\ (forall pages,
        forallb (fun c => negb (c =? 8211)) pages = true ->
        undash (dash_pairs pages) = pages)
  /\ eval resolve_pages pages_100_110 = Ok (u ", pp. 100" ++ [8211] ++ u "110")
  /\ dash_pairs (u "100--110") = u "100" ++ [8211] ++ u "110".
Proof.
  assert (Hc : eval resolve_container e = Ok (container_of e))
    by (unfold eval; rewrite resolve_container_run; reflexivity).
  assert (Hv : eval resolve_volume e = Ok (volume_of e))
    by (unfold eval; rewrite resolve_volume_run; reflexivity).
  assert (Hp : eval resolve_pages e = Ok (pages_of e))
    by (unfold eval; rewrite resolve_pages_run; reflexivity).
  split; [|split; [|split; [|split; [|split; [|split; [|split]]]]]].
  - rewrite Hc. unfold container_of, em.
    destruct (field "journal" e), (field "booktitle" e),
      (field "publisher" e); rewrite <- ?app_assoc; reflexivity.
  - exact Hv.
  - rewrite Hp. unfold pages_of. destruct (field "pages" e); [|reflexivity].
    rewrite replace_dash_pairs. reflexivity.
  - intros container volume pages Hc' Hv' Hp'.
    rewrite Hc in Hc'. rewrite Hv in Hv'. rewrite Hp in Hp'.
    injection Hc' as <-. injection Hv' as <-. injection Hp' as <-.
    split.
    + rewrite format_bibtex_entry_eval.
      destruct (eval get_author_string e); reflexivity.
    + unfold container_of, volume_of, pages_of, em.
      destruct (field "journal" e), (field "booktitle" e),
        (field "publisher" e), (field "volume" e), (field "pages" e);
        reflexivity.
  - intros pages. rewrite <- replace_dash_pairs.
    apply replace_hyphens_none_left.
  - apply undash_dash_pairs.
  - vm_compute. reflexivity.
  - vm_compute. reflexivity.
Qed.

(** ** Sorting *)

Section SortEntries.

Variable lower : pystr -> pystr.

Lemma author_sort_key_reads : reads_only (author_sort_key lower).
Proof. unfold author_sort_key. reads_only_tac. Qed.

Lemma year_sort_key_eval (e : entry) :
  eval year_sort_key e = Ok (match field "year" e with Some v => v | None => [] end).
Proof. reflexivity. Qed.

(** Without an author field the key of the first pass is [IndexError]. *)
Lemma author_sort_key_without_author (e : entry) :
  field "author" e = None ->
  eval (author_sort_key lower) e = Raise IndexError.
Proof.
  unfold field, eval, author_sort_key. intros H. run_block. rewrite H.
  reflexivity.
Qed.

Let key1 (e : entry) : pystr :=
  match eval (author_sort_key lower) e with Ok k => k | Raise _ => [] end.

Let key2 (e : entry) : pystr :=
  match field "year" e with Some v => v | None => [] end.

Lemma keys_of_ok (l : list entry) (ks : list pystr) :
  keys_of (eval (author_sort_key lower)) l = Ok ks ->
  forall e, In e l -> eval (author_sort_key lower) e = Ok (key1 e).
Proof.
  revert ks. induction l as [|a r IH]; intros ks H e He; [destruct He|].
  cbn [keys_of] in H. unfold key1.
  destruct (eval (author_sort_key lower) a) as [k|x] eqn:Ha; [|discriminate].
  destruct (keys_of (eval (author_sort_key lower)) r) as [ks'|x] eqn:Hr;
    [|discriminate].
  destruct He as [<-|He].
  - rewrite Ha. reflexivity.
  - apply (IH ks' eq_refl e He).
Qed.

Lemma keys_of_composite_raise (l : list entry) (x : exn) :
  keys_of (eval (author_sort_key lower)) l = Raise x ->
  keys_of (composite_key lower) l = Raise x.
Proof.
  induction l as [|a r IH]; [discriminate|].
  cbn [keys_of]. unfold composite_key at 1.
  destruct (eval (author_sort_key lower) a) as [k|y];
    [|intros H; injection H as ->; reflexivity].
  rewrite year_sort_key_eval.
  destruct (keys_of (eval (author_sort_key lower)) r) as [ks|y];
    [discriminate|].
  intros H. rewrite (IH H). reflexivity.
Qed.

Lemma two_pass_is_one (entries : list entry) :
  sort_entries lower entries = sort_entries_composite lower entries.
Proof.
  unfold sort_entries, sort_entries_composite.
  destruct (keys_of (eval (author_sort_key lower)) entries) as [ks|x] eqn:Hks.
  - pose proof (keys_of_ok entries ks Hks) as Hkey.
    rewrite (sorted_total str_lt key1 _ entries Hkey).
    rewrite (sorted_total str_lt key2 (eval year_sort_key));
      [|intros; apply year_sort_key_eval].
    rewrite (sorted_total pair_lt (fun e => (key2 e, key1 e))).
    + rewrite two_pass_sort_by. reflexivity.
    + intros e He. unfold composite_key. rewrite (Hkey e He).
      rewrite year_sort_key_eval. reflexivity.
  - rewrite (sorted_raise _ _ _ _ Hks).
    rewrite (sorted_raise _ _ _ _ (keys_of_composite_raise _ _ Hks)).
    reflexivity.
Qed.

End SortEntries.

(** C6, as amended. The two passes give what one stable sort by the pair
    (year, lower-cased surname of the first author) gives, the year first,
    and raise where it raises. Years compare as strings: "2012" is after
    "1998", and "900" is after both. *)
Theorem two_pass_is_composite (lower : pystr -> pystr) (entries : list entry) :
  sort_entries lower entries = sort_entries_composite lower entries
  /\ str_lt (u "1998") (u "2012") = true
  /\ str_lt (u "2012") (u "900") = true
  /\ str_lt (u "1998") (u "900") = true
  /\ sort_entries ascii_lower [zed_1998; ann_1998; lee_1990]
     = Ok [lee_1990; ann_1998; zed_1998]
  /\ sort_entries ascii_lower [old_900; new_2012; zed_1998]
     = Ok [zed_1998; new_2012; old_900].
Proof.
  split; [apply two_pass_is_one|].
  repeat split; vm_compute; reflexivity.
Qed.

(** C6 as the specification words it: "900" would come before "1998" and
    "2012". It comes after them. *)
Lemma year_900_not_first :
  str_lt (u "900") (u "1998") = false
  /\ str_lt (u "900") (u "2012") = false
  /\ sort_entries ascii_lower [old_900; zed_1998; new_2012]
     <> Ok [old_900; zed_1998; new_2012]
  /\ sort_entries ascii_lower [old_900; zed_1998; new_2012]
     = Ok [zed_1998; new_2012; old_900].
Proof.
  assert (H : sort_entries ascii_lower [old_900; zed_1998; new_2012]
              = Ok [zed_1998; new_2012; old_900]) by (vm_compute; reflexivity).
  repeat split; try (vm_compute; reflexivity); try exact H.
  rewrite H. intros Heq.
  apply (f_equal (fun r : result (list entry) =>
                    match r with
                    | Ok (e :: _) => field "year" e
                    | _ => None
                    end)) in Heq.
  vm_compute in Heq. discriminate.
Qed.

(** C1. A record without an author field makes the key of the first pass
    raise [IndexError]: the sort raises, alone or among other records, and
    the exception leaves [convert_bib_to_html] after the two messages, the
    files as they were. *)
Theorem author_sort_key_raises (lower : pystr -> pystr) :
  eval (author_sort_key lower) no_author = Raise IndexError
  /\ eval (author_sort_key lower) empty_author = Raise IndexError
  /\ sort_entries lower [no_author] = Raise IndexError
  /\ sort_entries lower [three_authors; no_author] = Raise IndexError
  /\ convert_bib_to_html lower (env_ok [three_authors; no_author])
       input_bib output_html world_with_input
     = (mkWorld [u "Reading the BibTeX file: bibliography.bib";
                 u "Sorting entries by year..."]
          (files world_with_input),
        Uncaught IndexError).
Proof.
  assert (H1 : eval (author_sort_key lower) no_author = Raise IndexError)
    by (apply author_sort_key_without_author; vm_compute; reflexivity).
  assert (H2 : eval (author_sort_key lower) empty_author = Raise IndexError)
    by (vm_compute; reflexivity).
  repeat split; try assumption; vm_compute; reflexivity.
Qed.

(** ** Failures of the run *)



(** What a failure of [write] leaves: the output file holds what got
    through. *)
Lemma write_failure_leaves_prefix (env : Env) (output_file full_html : pystr)
    (w : World) (n : nat) (cause : pystr) :
  open_w_error env = None ->
  write_error env = Some (n, cause) ->
  files (write_output env output_file full_html w)
  = <[output_file := firstn n full_html]> (files w).
Proof.
  intros Ho Hw. unfold write_output. rewrite Ho, Hw.
  unfold print, set_file. cbn [files]. apply insert_insert_eq.
Qed.


(** ** Whitespace, blank text and tokens *)

Lemma lstrip_nil_iff (s : pystr) : lstrip s = [] <-> blank s.
Proof.
  unfold blank. induction s as [|c s IH]; cbn [lstrip].
  - split; [constructor|reflexivity].
  - destruct (isspace c) eqn:Hc.
    + rewrite IH. split; [constructor; assumption|].
      intros H. apply List.Forall_inv_tail in H. assumption.
    + split; [discriminate|]. intros H. apply List.Forall_inv in H. congruence.
Qed.

Lemma lstrip_head (s : pystr) (a : N) (t : pystr) :
  lstrip s = a :: t -> isspace a = false.
Proof.
  induction s as [|c s IH]; [discriminate|]. cbn [lstrip].
  destruct (isspace c) eqn:Hc; [exact IH|]. intros H. injection H as <- _.
  assumption.
Qed.

Lemma blank_rev (s : pystr) : blank (rev s) <-> blank s.
Proof.
  unfold blank. rewrite !List.Forall_forall.
  split; intros H c Hc; apply H; [apply List.in_rev in Hc|apply List.in_rev];
    rewrite ?rev_involutive; assumption.
Qed.

Lemma strip_nil_iff (s : pystr) : strip s = [] <-> blank s.
Proof.
  unfold strip, rstrip. split.
  - intros H. apply (f_equal (@rev N)) in H. rewrite rev_involutive in H.
    cbn [rev] in H. apply (proj1 (lstrip_nil_iff _)) in H.
    apply (proj1 (blank_rev _)) in H.
    apply lstrip_nil_iff. destruct (lstrip s) as [|a t] eqn:Hl; [reflexivity|].
    apply lstrip_head in Hl. apply List.Forall_inv in H. congruence.
  - intros H. apply lstrip_nil_iff in H. rewrite H. reflexivity.
Qed.

Lemma last_token_none_iff (s : pystr) : last_token s = None <-> blank s.
Proof.
  unfold last_token. rewrite <- blank_rev, <- lstrip_nil_iff.
  destruct (lstrip (rev s)) as [|a t] eqn:Hl.
  - split; reflexivity.
  - apply lstrip_head in Hl. cbn [take_nonspace]. rewrite Hl.
    split; discriminate.
Qed.

Lemma has_comma_not_blank (s : pystr) : has_comma s = true -> ~ blank s.
Proof.
  unfold has_comma, blank. intros H Hb. apply existsb_exists in H as (c & Hin & Hc).
  apply N.eqb_eq in Hc. subst c. rewrite List.Forall_forall in Hb.
  specialize (Hb _ Hin). vm_compute in Hb. discriminate.
Qed.

Lemma strip_blank_nil (s : pystr) : blank (strip s) -> strip s = [].
Proof.
  unfold strip, rstrip. intros H. apply (proj1 (blank_rev _)) in H.
  destruct (lstrip (rev (lstrip s))) as [|a t] eqn:Hl; [reflexivity|].
  apply lstrip_head in Hl. apply List.Forall_inv in H. congruence.
Qed.

(** A trimmed piece has no surname exactly when it is empty. *)
Lemma surname_strip_none_iff (piece : pystr) :
  surname (strip piece) = None <-> strip piece = [].
Proof.
  unfold surname. split.
  - destruct (has_comma (strip piece)); [discriminate|].
    intros H. apply last_token_none_iff in H.
    apply strip_blank_nil. assumption.
  - intros ->. reflexivity.
Qed.

Lemma all_some_none_iff {A B} (g : A -> option B) (l : list A) :
  all_some (List.map g l) = None <-> List.Exists (fun x => g x = None) l.
Proof.
  induction l as [|x r IH]; cbn [List.map all_some].
  - split; [discriminate|]. intros H. inversion H.
  - destruct (g x) as [y|] eqn:Hx.
    + destruct (all_some (List.map g r)) as [ys|].
      * split; [discriminate|]. intros H. inversion H as [? ? H0|? ? H0]; subst.
        -- congruence.
        -- apply IH in H0. discriminate.
      * split; [|reflexivity]. intros _. apply List.Exists_cons_tl.
        apply IH. reflexivity.
    + split; [|reflexivity]. intros _. apply List.Exists_cons_hd. assumption.
Qed.

(** ** When the formatter raises *)

Lemma eval_get_author_string (e : entry) :
  eval get_author_string e =
  match author_string e with
  | Some s => Ok s
  | None => Raise IndexError
  end.
Proof. unfold eval. rewrite get_author_string_run. reflexivity. Qed.

Lemma author_string_none_iff (e : entry) :
  author_string e = None <->
  exists a, field "author" e = Some a
            /\ List.Exists (fun p => strip p = []) (split (u " and ") a).
Proof.
  unfold author_string, author_string_with, author_pieces.
  destruct (field "author" e) as [a|].
  - destruct (all_some _) as [names|] eqn:Hall.
    + split; [discriminate|]. intros (a' & Ha & Hex). injection Ha as <-.
      exfalso. assert (Hnone : all_some
        (List.map surname (List.map strip (split (u " and ") a))) = None).
      { apply all_some_none_iff. apply List.Exists_exists.
        apply List.Exists_exists in Hex as (p & Hin & Hp).
        exists (strip p). split; [apply List.in_map; assumption|].
        apply surname_strip_none_iff. assumption. }
      congruence.
    + split; [|reflexivity]. intros _. exists a. split; [reflexivity|].
      apply all_some_none_iff in Hall. apply List.Exists_exists in Hall
        as (q & Hin & Hq).
      apply List.in_map_iff in Hin as (p & <- & Hin).
      apply List.Exists_exists. exists p. split; [assumption|].
      apply surname_strip_none_iff. assumption.
  - split; [discriminate|]. intros (a & Ha & _). discriminate.
Qed.

(** X1. [get_author_string] raises exactly when the record has an author
    field of which a piece between " and " separators is empty once
    trimmed, and then it raises [IndexError]; [format_bibtex_entry] raises
    exactly when [get_author_string] does, with the same exception: none of
    its subscripts on the record raises [KeyError]. *)
Theorem formatter_raises_iff_blank_piece (e : entry) :
  (eval get_author_string e = Raise IndexError <->
   exists a, field "author" e = Some a
             /\ List.Exists (fun p => strip p = []) (split (u " and ") a))
  /\ (forall x, eval get_author_string e = Raise x -> x = IndexError)
  /\ (forall x, eval format_bibtex_entry e = Raise x <->
                eval get_author_string e = Raise x).
Proof.
  split; [|split].
  - rewrite eval_get_author_string, <- author_string_none_iff.
    destruct (author_string e); split; intros H;
      first [reflexivity | discriminate H].
  - intros x. rewrite eval_get_author_string.
    destruct (author_string e); intros H; [discriminate|].
    injection H as <-. reflexivity.
  - intros x. rewrite format_bibtex_entry_eval.
    destruct (eval get_author_string e); split; intros H;
      try discriminate; assumption.
Qed.

(** ** The key of the first sort *)

Lemma split_nonempty (sep s : pystr) : exists p ps, split sep s = p :: ps.
Proof.
  unfold split. destruct s as [|c s]; cbn [split_go]; [eauto|].
  destruct (startswith sep (c :: s)); [eauto|].
  destruct (split_go sep 0 s); eauto.
Qed.

Lemma author_sort_key_eval (lower : pystr -> pystr) (e : entry) :
  eval (author_sort_key lower) e
  = match last_token (first_author_text e) with
    | Some token => Ok (lower token)
    | None => Raise IndexError
    end.
Proof.
  unfold eval, author_sort_key, first_author_text, author_or_empty, field.
  run_block.
  destruct (split_nonempty (u " and ")
              (match e !! u "author" with Some v => v | None => [] end))
    as (p & ps & Hsplit).
  rewrite Hsplit. cbn [index0 List.hd snd].
  destruct (split_comma_head p) as (rest & ->). cbn [index0].
  unfold index_last. rewrite split_ws_last.
  destruct (last_token (before_first_comma p)); reflexivity.
Qed.

Lemma author_sort_key_raise_iff (lower : pystr -> pystr) (e : entry) (x : exn) :
  eval (author_sort_key lower) e = Raise x <->
  x = IndexError /\ blank (first_author_text e).
Proof.
  rewrite author_sort_key_eval, <- last_token_none_iff.
  destruct (last_token (first_author_text e)); split.
  - discriminate.
  - intros [_ H]. discriminate.
  - intros H. injection H as <-. split; reflexivity.
  - intros [-> _]. reflexivity.
Qed.

(** X2. The key of the first sort is the lower-cased last
    whitespace-delimited token of the text before the first comma of the
    first author; it raises [IndexError], and nothing else, exactly when
    that text is blank. *)
Theorem author_sort_key_value (lower : pystr -> pystr) (e : entry) :
  eval (author_sort_key lower) e
  = match last_token (first_author_text e) with
    | Some token => Ok (lower token)
    | None => Raise IndexError
    end
  /\ (forall x, eval (author_sort_key lower) e = Raise x <->
                x = IndexError /\ blank (first_author_text e)).
Proof.
  split; [apply author_sort_key_eval|].
  intros x. apply author_sort_key_raise_iff.
Qed.

(** ** What the sort returns *)

Section SortOrdered.

Context {A K : Type}.
Variable lt : K -> K -> bool.
Variable f : A -> K.
Hypothesis lt_asym : forall a b, lt a b = true -> lt b a = false.
Hypothesis lt_neg_trans :
  forall a b c, lt a c = true -> lt a b = true \/ lt b c = true.

Lemma insert_by_ordered (x : A) (l : list A) :
  ordered lt f l -> ordered lt f (insert_by lt f x l).
Proof.
  induction 1 as [|y r Hy Hr IH]; cbn [insert_by].
  - repeat constructor.
  - destruct (lt (f y) (f x)) eqn:Hyx.
    + constructor; [|assumption].
      apply List.Forall_forall. intros w Hw.
      apply insert_by_In in Hw as [->|Hw].
      * apply lt_asym. assumption.
      * rewrite List.Forall_forall in Hy. apply Hy. assumption.
    + constructor; [|constructor; assumption].
      constructor; [assumption|].
      rewrite List.Forall_forall in *. intros w Hw. specialize (Hy w Hw).
      unfold may_follow in *.
      destruct (lt (f w) (f x)) eqn:Hwx; [|reflexivity].
      destruct (lt_neg_trans _ (f y) _ Hwx); congruence.
Qed.

Lemma sort_by_ordered (l : list A) : ordered lt f (sort_by lt f l).
Proof.
  induction l as [|x r IH]; [constructor|].
  apply insert_by_ordered. assumption.
Qed.

(** A list in order is left as it is. *)
Lemma sort_by_of_ordered (l : list A) :
  ordered lt f l -> sort_by lt f l = l.
Proof.
  induction 1 as [|x r Hx Hr IH]; [reflexivity|].
  change (sort_by lt f (x :: r)) with (insert_by lt f x (sort_by lt f r)).
  rewrite IH. destruct r as [|y r']; [reflexivity|].
  cbn [insert_by]. apply List.Forall_inv in Hx. unfold may_follow in Hx.
  rewrite Hx. reflexivity.
Qed.

Lemma sort_by_idempotent (l : list A) :
  sort_by lt f (sort_by lt f l) = sort_by lt f l.
Proof. apply sort_by_of_ordered, sort_by_ordered. Qed.

End SortOrdered.

Lemma str_lt_neg_trans (a b c : pystr) :
  str_lt a c = true -> str_lt a b = true \/ str_lt b c = true.
Proof.
  intros Hac. destruct (str_lt a b) eqn:Hab; [left; reflexivity|right].
  destruct (str_lt b a) eqn:Hba.
  - eapply str_lt_trans; eassumption.
  - rewrite <- (str_lt_connected _ _ Hab Hba). assumption.
Qed.

Lemma pair_lt_asym (a b : pystr * pystr) :
  pair_lt a b = true -> pair_lt b a = false.
Proof.
  unfold pair_lt. repeat case_bool_decide; try congruence; apply str_lt_asym.
Qed.

Lemma pair_lt_neg_trans (a b c : pystr * pystr) :
  pair_lt a c = true -> pair_lt a b = true \/ pair_lt b c = true.
Proof.
  unfold pair_lt. destruct a as [a1 a2], b as [b1 b2], c as [c1 c2].
  cbn [fst snd].
  destruct (decide (a1 = b1)) as [->|Hab]; destruct (decide (b1 = c1)) as [->|Hbc].
  - rewrite !bool_decide_eq_true_2 by reflexivity. apply str_lt_neg_trans.
  - rewrite (bool_decide_eq_false_2 _ Hbc). intros H. right. assumption.
  - rewrite (bool_decide_eq_false_2 _ Hab). intros H. left. assumption.
  - rewrite (bool_decide_eq_false_2 _ Hab), (bool_decide_eq_false_2 _ Hbc).
    destruct (decide (a1 = c1)) as [->|Hac].
    + intros _. rewrite (str_lt_total _ _ Hab).
      destruct (str_lt b1 c1); [right|left]; reflexivity.
    + rewrite (bool_decide_eq_false_2 _ Hac). apply str_lt_neg_trans.
Qed.

(** ** The sorted records *)

Lemma keys_of_ok_in {A K} (key : A -> result K) (l : list A) (ks : list K) :
  keys_of key l = Ok ks -> forall x, In x l -> exists k, key x = Ok k.
Proof.
  revert ks. induction l as [|a r IH]; intros ks H x Hx; [destruct Hx|].
  cbn [keys_of] in H. destruct (key a) as [k|] eqn:Ha; [|discriminate].
  destruct (keys_of key r) as [ks'|] eqn:Hr; [|discriminate].
  destruct Hx as [<-|Hx]; [eauto|]. apply (IH ks' eq_refl x Hx).
Qed.

Lemma keys_of_raise_in {A K} (key : A -> result K) (l : list A) (x : exn) :
  keys_of key l = Raise x -> exists a, In a l /\ key a = Raise x.
Proof.
  induction l as [|a r IH]; [discriminate|].
  cbn [keys_of]. destruct (key a) as [k|y] eqn:Ha.
  - destruct (keys_of key r) as [ks|y]; [discriminate|].
    intros H. destruct (IH H) as (b & Hb & Hkb). exists b.
    split; [right; assumption|assumption].
  - intros H. injection H as <-. exists a. split; [left; reflexivity|assumption].
Qed.

Lemma keys_of_all_ok {A K} (key : A -> result K) (l : list A) :
  (forall x, In x l -> exists k, key x = Ok k) -> exists ks, keys_of key l = Ok ks.
Proof.
  induction l as [|a r IH]; intros H; [exists []; reflexivity|].
  destruct (H a (or_introl eq_refl)) as [k Hk].
  destruct IH as [ks Hks]; [intros x Hx; apply H; right; assumption|].
  exists (k :: ks). cbn [keys_of]. rewrite Hk, Hks. reflexivity.
Qed.

Lemma composite_key_ok (lower : pystr -> pystr) (e : entry) (k : pystr * pystr) :
  composite_key lower e = Ok k ->
  k = sort_key lower e /\ eval (author_sort_key lower) e = Ok (surname_key lower e).
Proof.
  unfold composite_key, sort_key, surname_key.
  destruct (eval (author_sort_key lower) e) as [k1|]; [|discriminate].
  rewrite year_sort_key_eval. intros H. injection H as <-.
  split; reflexivity.
Qed.

(** The two passes return the insertion sort on the pair, when they
    return. *)
Lemma sort_entries_ok (lower : pystr -> pystr) (l l' : list entry) :
  sort_entries lower l = Ok l' ->
  l' = sort_by pair_lt (sort_key lower) l
  /\ forall e, In e l ->
       eval (author_sort_key lower) e = Ok (surname_key lower e).
Proof.
  rewrite two_pass_is_one. unfold sort_entries_composite. intros H.
  assert (Hkeys : forall e, In e l ->
            composite_key lower e = Ok (sort_key lower e)
            /\ eval (author_sort_key lower) e = Ok (surname_key lower e)).
  { unfold sorted in H.
    destruct (keys_of (composite_key lower) l) as [ks|] eqn:Hks; [|discriminate].
    intros e He. destruct (keys_of_ok_in _ _ _ Hks e He) as [k Hk].
    destruct (composite_key_ok _ _ _ Hk) as [-> Hs]. split; assumption. }
  rewrite (sorted_total pair_lt (sort_key lower)) in H
    by (intros e He; apply Hkeys; assumption).
  injection H as <-. split; [reflexivity|]. intros e He. apply Hkeys. assumption.
Qed.

Lemma sort_entries_of_keys (lower : pystr -> pystr) (l : list entry) :
  (forall e, In e l -> exists k, eval (author_sort_key lower) e = Ok k) ->
  sort_entries lower l = Ok (sort_by pair_lt (sort_key lower) l).
Proof.
  intros H. rewrite two_pass_is_one. unfold sort_entries_composite.
  apply sorted_total. intros e He. destruct (H e He) as [k Hk].
  unfold composite_key, sort_key, surname_key. rewrite Hk, year_sort_key_eval.
  reflexivity.
Qed.

Lemma ordered_weaken {A K1 K2} (lt1 : K1 -> K1 -> bool) (lt2 : K2 -> K2 -> bool)
    (f1 : A -> K1) (f2 : A -> K2) (l : list A) :
  (forall x y, may_follow lt1 f1 x y -> may_follow lt2 f2 x y) ->
  ordered lt1 f1 l -> ordered lt2 f2 l.
Proof.
  intros Himp. induction 1 as [|y r Hy Hr IH]; constructor; [|assumption].
  eapply List.Forall_impl; [|exact Hy]. intros w. apply Himp.
Qed.

(** X3. When the two passes return, their result is a rearrangement of the
    records given, in order for the pair (year, surname key), and so with
    years that never decrease (as strings). *)
Theorem sort_entries_ordered (lower : pystr -> pystr) (l l' : list entry) :
  sort_entries lower l = Ok l' ->
  Permutation l' l
  /\ ordered pair_lt (sort_key lower) l'
  /\ ordered str_lt year_key l'.
Proof.
  intros H. destruct (sort_entries_ok lower l l' H) as [-> _].
  assert (Hord : ordered pair_lt (sort_key lower)
                   (sort_by pair_lt (sort_key lower) l))
    by (apply sort_by_ordered; [apply pair_lt_asym|apply pair_lt_neg_trans]).
  split; [apply sort_by_Permutation|]. split; [exact Hord|].
  eapply ordered_weaken; [|exact Hord].
  intros x y Hxy. unfold may_follow in *.
  apply (pair_lt_false_fst (sort_key lower y) (sort_key lower x)). assumption.
Qed.

Lemma sort_entries_ordered_witness :
  Permutation [lee_1990; ann_1998; zed_1998] [zed_1998; ann_1998; lee_1990]
  /\ ordered str_lt year_key [lee_1990; ann_1998; zed_1998].
Proof.
  destruct (sort_entries_ordered ascii_lower [zed_1998; ann_1998; lee_1990]
              [lee_1990; ann_1998; zed_1998]) as (Hp & _ & Hy).
  - vm_compute. reflexivity.
  - split; assumption.
Defined.

(** X4. Sorting again changes nothing: the result of the two passes is
    returned as it is by another run of them. *)
Theorem sort_entries_idempotent (lower : pystr -> pystr) (l l' : list entry) :
  sort_entries lower l = Ok l' -> sort_entries lower l' = Ok l'.
Proof.
  intros H. destruct (sort_entries_ok lower l l' H) as [-> Hkeys].
  rewrite sort_entries_of_keys.
  - rewrite sort_by_idempotent;
      [reflexivity|apply pair_lt_asym|apply pair_lt_neg_trans].
  - intros e He. apply sort_by_In in He. eauto.
Qed.

Lemma sort_entries_idempotent_witness :
  sort_entries ascii_lower [lee_1990; ann_1998; zed_1998]
  = Ok [lee_1990; ann_1998; zed_1998].
Proof.
  apply (sort_entries_idempotent ascii_lower [zed_1998; ann_1998; lee_1990]).
  vm_compute. reflexivity.
Defined.

(** ** The run as a whole: crashes, files, success *)

Lemma format_eval_author_string (e : entry) :
  eval format_bibtex_entry e =
  match author_string e with
  | Some _ => Ok (fragment_of e)
  | None => Raise IndexError
  end.
Proof.
  rewrite format_bibtex_entry_eval, eval_get_author_string.
  unfold fragment_of, author_str_of. destruct (author_string e); reflexivity.
Qed.

Lemma html_content_of_raise_in (l : list entry) :
  forall acc x, html_content_of l acc = Raise x ->
    x = IndexError /\ exists e, In e l /\ author_string e = None.
Proof.
  induction l as [|e r IH]; intros acc x; [discriminate|].
  cbn [html_content_of]. rewrite format_eval_author_string.
  destruct (author_string e) eqn:He.
  - intros H. destruct (IH _ _ H) as (-> & e' & Hin & He').
    split; [reflexivity|]. exists e'. split; [right; assumption|assumption].
  - intros H. injection H as <-. split; [reflexivity|].
    exists e. split; [left; reflexivity|assumption].
Qed.

Lemma html_content_of_raises (l : list entry) :
  (exists e, In e l /\ author_string e = None) ->
  forall acc, html_content_of l acc = Raise IndexError.
Proof.
  induction l as [|e r IH]; intros (e' & Hin & He') acc; [destruct Hin|].
  cbn [html_content_of]. rewrite format_eval_author_string.
  destruct (author_string e) eqn:He.
  - apply IH. destruct Hin as [<-|Hin]; [congruence|]. eauto.
  - reflexivity.
Qed.

Lemma html_content_of_concat (l : list entry) :
  (forall e, In e l -> author_string e <> None) ->
  forall acc,
    html_content_of l acc = Ok (acc ++ List.concat (List.map fragment_of l)).
Proof.
  induction l as [|e r IH]; intros H acc.
  - cbn. rewrite app_nil_r. reflexivity.
  - cbn [html_content_of List.map List.concat].
    rewrite format_eval_author_string.
    destruct (author_string e) eqn:He;
      [|exfalso; apply (H e (or_introl eq_refl)); assumption].
    rewrite IH by (intros e' He'; apply H; right; assumption).
    rewrite <- app_assoc. reflexivity.
Qed.

Lemma keys_of_raises {A K} (key : A -> result K) (l : list A) :
  (forall a x, key a = Raise x -> x = IndexError) ->
  (exists a, In a l /\ key a = Raise IndexError) ->
  keys_of key l = Raise IndexError.
Proof.
  intros Hx. induction l as [|a r IH]; intros (b & Hin & Hb); [destruct Hin|].
  cbn [keys_of]. destruct (key a) as [k|y] eqn:Ha.
  - rewrite IH; [reflexivity|]. destruct Hin as [<-|Hin]; [congruence|]. eauto.
  - rewrite (Hx a y Ha). reflexivity.
Qed.

Lemma sort_entries_raise_iff (lower : pystr -> pystr) (l : list entry) (x : exn) :
  sort_entries lower l = Raise x <->
  x = IndexError /\ exists e, In e l /\ blank (first_author_text e).
Proof.
  split.
  - intros H. unfold sort_entries, sorted in H.
    destruct (keys_of (eval (author_sort_key lower)) l) as [ks|y] eqn:Hks.
    + cbn in H. destruct (keys_of (eval year_sort_key) _) eqn:Hy;
        [discriminate|].
      apply keys_of_raise_in in Hy as (a & _ & Ha).
      rewrite year_sort_key_eval in Ha. discriminate.
    + injection H as <-. apply keys_of_raise_in in Hks as (a & Hin & Ha).
      apply author_sort_key_raise_iff in Ha as [-> Hb]. eauto.
  - intros (-> & e & Hin & Hb).
    assert (Hks : keys_of (eval (author_sort_key lower)) l = Raise IndexError).
    { apply keys_of_raises.
      - intros a x Ha. apply author_sort_key_raise_iff in Ha as [-> _].
        reflexivity.
      - exists e. split; [assumption|]. apply author_sort_key_raise_iff.
        split; [reflexivity|assumption]. }
    unfold sort_entries, sorted. rewrite Hks. reflexivity.
Qed.

Lemma prepare_raise_iff (lower : pystr -> pystr) (l : list entry) (x : exn) :
  prepare lower l = Raise x <->
  x = IndexError /\ exists e, In e l /\ unsortable_or_unformattable e.
Proof.
  unfold prepare, unsortable_or_unformattable, has_blank_piece. split.
  - destruct (sort_entries lower l) as [l'|y] eqn:Hs.
    + destruct (html_content_of l' []) as [h|y] eqn:Hh; [discriminate|].
      intros H. injection H as <-.
      apply html_content_of_raise_in in Hh as (-> & e & Hin & He).
      split; [reflexivity|]. exists e.
      destruct (sort_entries_ok _ _ _ Hs) as [-> _].
      apply sort_by_In in Hin. split; [assumption|right].
      apply author_string_none_iff. assumption.
    + intros H. injection H as <-.
      apply sort_entries_raise_iff in Hs as (-> & e & Hin & Hb).
      split; [reflexivity|]. eauto.
  - intros (-> & e & Hin & He).
    destruct (sort_entries lower l) as [l'|y] eqn:Hs.
    + destruct He as [Hb|Hp].
      * assert (Hr : sort_entries lower l = Raise IndexError)
          by (apply sort_entries_raise_iff; eauto).
        congruence.
      * destruct (sort_entries_ok _ _ _ Hs) as [-> _].
        rewrite html_content_of_raises; [reflexivity|].
        exists e. split; [apply sort_by_In; assumption|].
        apply author_string_none_iff. assumption.
    + apply sort_entries_raise_iff in Hs as [-> _]. reflexivity.
Qed.

(** X5. An exception leaves [convert_bib_to_html] exactly when the input
    was read and one of its records has a blank text before the first
    comma of its first author (the sort raises) or an author piece that is
    empty once trimmed (the formatter raises); the exception is then
    [IndexError]. *)
Theorem uncaught_iff (lower : pystr -> pystr) (env : Env)
    (input_file output_file : pystr) (w : World) (x : exn) :
  snd (convert_bib_to_html lower env input_file output_file w) = Uncaught x
  <->
  x = IndexError
  /\ exists entries,
       read_entries env input_file w = ReadOk entries
       /\ exists e, In e entries /\ unsortable_or_unformattable e.
Proof.
  unfold convert_bib_to_html.
  change (read_entries env input_file
            (print (u "Reading the BibTeX file: " ++ input_file) w))
    with (read_entries env input_file w).
  destruct (read_entries env input_file w) as [entries| |cause].
  - pose proof (prepare_raise_iff lower entries x) as Hp. unfold prepare in Hp.
    destruct (sort_entries lower entries) as [l'|y].
    + destruct (html_content_of l' []) as [h|y]; cbn [snd].
      * split; [discriminate|]. intros (Hx & entries' & Heq & He).
        injection Heq as <-. apply proj2 in Hp. discriminate Hp. eauto.
      * split.
        -- intros H. injection H as <-.
           destruct (proj1 Hp eq_refl) as [-> He]. eauto.
        -- intros (-> & entries' & Heq & He). injection Heq as <-.
           f_equal. assert (H : Raise (A:=pystr) y = Raise IndexError)
             by (apply Hp; eauto). congruence.
    + cbn [snd]. split.
      * intros H. injection H as <-. destruct (proj1 Hp eq_refl) as [-> He].
        eauto.
      * intros (-> & entries' & Heq & He). injection Heq as <-.
        f_equal. assert (H : Raise (A:=pystr) y = Raise IndexError)
          by (apply Hp; eauto). congruence.
  - cbn [snd]. split; [discriminate|]. intros (_ & ? & H & _). discriminate.
  - cbn [snd]. split; [discriminate|]. intros (_ & ? & H & _). discriminate.
Qed.

Lemma convert_other_files (lower : pystr -> pystr) (env : Env)
    (input_file output_file path : pystr) (w : World) :
  path <> output_file ->
  files (fst (convert_bib_to_html lower env input_file output_file w)) !! path
  = files w !! path.
Proof.
  intros Hne. unfold convert_bib_to_html.
  destruct (read_entries env input_file _) as [entries| |cause];
    try reflexivity.
  destruct (sort_entries lower entries) as [l'|y]; [|reflexivity].
  destruct (html_content_of l' []) as [h|y]; [|reflexivity].
  unfold write_output. cbn [fst].
  destruct (open_w_error env); [reflexivity|].
  destruct (write_error env) as [[n cause]|];
    unfold print, set_file; cbn [files];
    rewrite !lookup_insert_ne by congruence; reflexivity.
Qed.

(** X6. [convert_bib_to_html] touches no file but the output file, however
    the run ends. *)
Theorem other_files_untouched (lower : pystr -> pystr) (env : Env)
    (input_file output_file path : pystr) (w : World) :
  path <> output_file ->
  files (fst (convert_bib_to_html lower env input_file output_file w)) !! path
  = files w !! path.
Proof. apply convert_other_files. Qed.

Lemma other_files_untouched_witness :
  files (fst (convert_bib_to_html ascii_lower (env_ok [three_authors])
                input_bib output_html world_with_input)) !! input_bib
  = files world_with_input !! input_bib.
Proof.
  apply other_files_untouched. vm_compute. discriminate.
Defined.

(** X7. When the input is read, no record makes the sort or the formatter
    raise, and opening and writing the output succeed, the output file
    holds the document around the fragments of the records in sorted
    order, the three messages are printed, and the call returns. *)
Theorem successful_run (lower : pystr -> pystr) (env : Env)
    (input_file output_file : pystr) (w : World) (entries : list entry) :
  read_entries env input_file w = ReadOk entries ->
  (forall e, In e entries -> ~ unsortable_or_unformattable e) ->
  open_w_error env = None ->
  write_error env = None ->
  convert_bib_to_html lower env input_file output_file w
  = (mkWorld
       (console w ++ [reading_message input_file]
        ++ [u "Sorting entries by year..."]
        ++ [success_message output_file])
       (<[output_file :=
            full_html_of
              (List.concat
                 (List.map fragment_of
                    (sort_by pair_lt (sort_key lower) entries)))]>
          (files w)),
     Returned).
Proof.
  intros Hread Hgood Hopen Hwrite. unfold convert_bib_to_html.
  change (read_entries env input_file
            (print (u "Reading the BibTeX file: " ++ input_file) w))
    with (read_entries env input_file w).
  rewrite Hread.
  rewrite sort_entries_of_keys.
  2:{ intros e He. rewrite author_sort_key_eval.
      destruct (last_token (first_author_text e)) eqn:Ht; [eauto|].
      exfalso. apply (Hgood e He). left. apply last_token_none_iff.
      assumption. }
  rewrite html_content_of_concat.
  2:{ intros e He Hnone. apply sort_by_In in He. apply (Hgood e He). right.
      apply author_string_none_iff. assumption. }
  unfold write_output. rewrite Hopen, Hwrite.
  unfold print, set_file, reading_message, success_message.
  cbn [console files app]. rewrite insert_insert_eq.
  rewrite <- !app_assoc. reflexivity.
Qed.

Lemma sortable_formattable (e : entry) (t s : pystr) :
  last_token (first_author_text e) = Some t ->
  author_string e = Some s ->
  ~ unsortable_or_unformattable e.
Proof.
  intros Ht Hs [Hb|Hp].
  - apply last_token_none_iff in Hb. congruence.
  - apply author_string_none_iff in Hp. congruence.
Qed.

(** The three records of the sort example, with no failure around. *)
Lemma successful_run_witness :
  convert_bib_to_html ascii_lower (env_ok [zed_1998; ann_1998; lee_1990])
    input_bib output_html world_with_input
  = (mkWorld
       (console world_with_input ++ [reading_message input_bib]
        ++ [u "Sorting entries by year..."]
        ++ [success_message output_html])
       (<[output_html :=
            full_html_of
              (List.concat
                 (List.map fragment_of
                    (sort_by pair_lt (sort_key ascii_lower)
                       [zed_1998; ann_1998; lee_1990])))]>
          (files world_with_input)),
     Returned).
Proof.
  apply (successful_run ascii_lower (env_ok [zed_1998; ann_1998; lee_1990])
           input_bib output_html world_with_input
           [zed_1998; ann_1998; lee_1990]).
  - vm_compute. reflexivity.
  - intros e [<-|[<-|[<-|[]]]].
    + apply (sortable_formattable _ (u "Zed") (u "Zed")); vm_compute; reflexivity.
    + apply (sortable_formattable _ (u "Ann") (u "Ann")); vm_compute; reflexivity.
    + apply (sortable_formattable _ (u "Lee") (u "Lee")); vm_compute; reflexivity.
  - reflexivity.
  - reflexivity.
Defined.

(** ** The link of the title is a URL or the placeholder *)

Lemma doi_url_recognizable (doi : pystr) :
  recognizable_url (u "https://doi.org/" ++ doi) = true.
Proof. reflexivity. Qed.

(** X9. The link put on the title is always the placeholder "#" or a
    string that starts with http or ftp, whatever the url and doi fields
    hold. *)
Theorem primary_link_is_url_or_placeholder (e : entry) (link : pystr) :
  eval resolve_link e = Ok link ->
  link = u "#" \/ recognizable_url link = true.
Proof.
  unfold eval. rewrite resolve_link_run. cbn [snd]. intros H.
  injection H as <-.
  unfold primary_link, doi_link_or_placeholder, is_placeholder.
  destruct (field "url" e) as [url|]; destruct (field "doi" e) as [doi|].
  - case_bool_decide as Hp; [left; assumption|]. cbn [orb].
    destruct (recognizable_url url) eqn:Hr; [right; assumption|].
    right. apply doi_url_recognizable.
  - case_bool_decide as Hp; [left; assumption|]. cbn [orb].
    destruct (recognizable_url url) eqn:Hr; [right; assumption|].
    left. reflexivity.
  - case_bool_decide as Hp; [left; assumption|]. cbn [orb].
    destruct (recognizable_url doi) eqn:Hr; [right; assumption|].
    right. apply doi_url_recognizable.
  - left. reflexivity.
Qed.

Lemma primary_link_is_url_or_placeholder_witness :
  u "https://doi.org/10.1/x" = u "#"
  \/ recognizable_url (u "https://doi.org/10.1/x") = true.
Proof.
  apply (primary_link_is_url_or_placeholder only_doi).
  vm_compute. reflexivity.
Defined.

(** ** Pages without a double hyphen *)

Lemma replace_hyphens_absent (s : pystr) :
  contains_str (u "--") s = false -> replace (u "--") en_dash s = s.
Proof.
  induction s as [|c t IH]; [reflexivity|].
  cbn [contains_str]. intros H. apply orb_false_iff in H as [Hhere Hrest].
  rewrite replace_hyphens_other by assumption. rewrite IH by assumption.
  reflexivity.
Qed.

(** X10. A pages field that holds no "--" is rendered as it is after
    ", pp. ". *)
Theorem pages_without_double_hyphen (e : entry) (pages : pystr) :
  field "pages" e = Some pages ->
  contains_str (u "--") pages = false ->
  eval resolve_pages e = Ok (u ", pp. " ++ pages).
Proof.
  intros Hp Hno. unfold eval. rewrite resolve_pages_run. cbn [snd].
  unfold pages_of. rewrite Hp, replace_hyphens_absent by assumption.
  reflexivity.
Qed.

(** ** Fields the formatter does not read *)

Lemma leading_present_agree (e e' : entry) (indices : list nat) :
  (forall n, In n indices -> has_url e' n = has_url e n) ->
  leading_present e' indices = leading_present e indices.
Proof.
  induction indices as [|n rest IH]; intros H; [reflexivity|].
  cbn [leading_present]. rewrite (H n (or_introl eq_refl)).
  rewrite IH by (intros m Hm; apply H; right; assumption). reflexivity.
Qed.

Lemma auxiliary_links_agree (e e' : entry) :
  (forall n, In n range_2_31 ->
     e' !! url_key n = e !! url_key n
     /\ e' !! url_note_key n = e !! url_note_key n) ->
  auxiliary_links e' = auxiliary_links e.
Proof.
  intros H. unfold auxiliary_links.
  assert (Hlead : leading_present e' range_2_31 = leading_present e range_2_31).
  { apply leading_present_agree. intros n Hn. unfold has_url.
    destruct (H n Hn) as [-> _]. reflexivity. }
  rewrite Hlead. apply links_of_agree. intros m Hm. apply H.
  clear -Hm. revert Hm. generalize range_2_31. intros l.
  induction l as [|n rest IH]; cbn [leading_present]; [intros []|].
  destruct (has_url e n); [|intros []].
  intros [<-|Hm]; [left; reflexivity|right; apply IH; assumption].
Qed.

Lemma fragment_agree (e e' : entry) (author_str : pystr) :
  (forall name, In name named_fields -> field name e' = field name e) ->
  auxiliary_links e' = auxiliary_links e ->
  fragment e' author_str = fragment e author_str.
Proof.
  intros H Haux.
  unfold fragment, fragment_links, primary_link, doi_link_or_placeholder,
    title_of, year_of, custom_note, note_populated, note_of, venue_sentence,
    has_venue, container_of, volume_of, pages_of.
  rewrite Haux.
  rewrite !(H "title"%string), !(H "year"%string), !(H "url"%string),
    !(H "doi"%string), !(H "note"%string), !(H "journal"%string),
    !(H "booktitle"%string), !(H "publisher"%string), !(H "volume"%string),
    !(H "pages"%string) by (unfold named_fields; cbn [In]; tauto).
  reflexivity.
Qed.

(** X8. A field whose name is none of the eleven named fields nor one of
    url_2 ... url_30, url_note_2 ... url_note_30 has no effect on the
    fragment, nor on whether the formatter raises: adding it, or changing
    its value, leaves the result as it was. *)
Theorem unread_field_ignored (e : entry) (k v : pystr) :
  ~ In k read_keys ->
  eval format_bibtex_entry (<[k:=v]> e) = eval format_bibtex_entry e.
Proof.
  intros Hk. unfold read_keys in Hk. rewrite !List.in_app_iff in Hk.
  assert (Hfield : forall name, In name named_fields ->
            field name (<[k:=v]> e) = field name e).
  { intros name Hname. unfold field. apply lookup_insert_ne. intros ->.
    apply Hk. left. apply List.in_map. assumption. }
  assert (Haux : auxiliary_links (<[k:=v]> e) = auxiliary_links e).
  { apply auxiliary_links_agree. intros n Hn.
    split; apply lookup_insert_ne; intros ->; apply Hk; right;
      [left|right]; apply List.in_map; assumption. }
  rewrite !format_bibtex_entry_eval, !eval_get_author_string.
  unfold author_string, author_string_with.
  rewrite (Hfield "author"%string) by (unfold named_fields; cbn [In]; tauto).
  destruct (field "author" e) as [a|].
  - destruct (all_some _); [|reflexivity].
    rewrite (fragment_agree e (<[k:=v]> e)) by assumption. reflexivity.
  - rewrite (fragment_agree e (<[k:=v]> e)) by assumption. reflexivity.
Qed.

(** The number field of an article. *)
Lemma unread_field_ignored_witness :
  eval format_bibtex_entry (<[u "number" := u "11"]> three_authors)
  = eval format_bibtex_entry three_authors.
Proof.
  apply unread_field_ignored.
  intros H. apply (proj2 (list_elem_of_In _ _)) in H. revert H.
  apply (bool_decide_unpack (u "number" ∉ read_keys)). vm_compute. exact I.
Defined.

Lemma pages_without_double_hyphen_witness :
  eval resolve_pages pages_12_15 = Ok (u ", pp. 12-15").
Proof.
  apply (pages_without_double_hyphen pages_12_15 (u "12-15"));
    vm_compute; reflexivity.
Defined.

(** ** The script run as a program *)

(** With the input file there, the conversion prints what it prints
    without the not-found message. *)
Lemma convert_console_found (lower : pystr -> pystr) (env : Env)
    (output_file : pystr) (w : World) (text : pystr) :
  files w !! INPUT_BIB = Some text ->
  exists msgs,
    console (fst (convert_bib_to_html lower env INPUT_BIB output_file w))
    = console w ++ msgs
    /\ ~ In (not_found_message INPUT_BIB) msgs.
Proof.
  intros Hfile. unfold convert_bib_to_html, read_entries.
  cbn [print files]. rewrite Hfile.
  destruct (open_r_error env) as [cause|].
  { exists [reading_message INPUT_BIB;
            u "ERROR while trying to read the BibTeX file: " ++ cause].
    unfold print, set_file; cbn [fst console]. rewrite <- !app_assoc. split; [reflexivity|].
    intros [H|[H|[]]]; vm_compute in H; discriminate. }
  destruct (load env text) as [entries|cause].
  2:{ exists [reading_message INPUT_BIB;
              u "ERROR while trying to read the BibTeX file: " ++ cause].
      unfold print, set_file; cbn [fst console]. rewrite <- !app_assoc. split; [reflexivity|].
      intros [H|[H|[]]]; vm_compute in H; discriminate. }
  destruct (sort_entries lower entries) as [l'|y].
  2:{ exists [reading_message INPUT_BIB; u "Sorting entries by year..."].
      unfold print, set_file; cbn [fst console]. rewrite <- !app_assoc. split; [reflexivity|].
      intros [H|[H|[]]]; vm_compute in H; discriminate. }
  destruct (html_content_of l' []) as [h|y].
  2:{ exists [reading_message INPUT_BIB; u "Sorting entries by year..."].
      unfold print, set_file; cbn [fst console]. rewrite <- !app_assoc. split; [reflexivity|].
      intros [H|[H|[]]]; vm_compute in H; discriminate. }
  unfold write_output. cbn [fst].
  destruct (open_w_error env) as [cause|].
  { exists [reading_message INPUT_BIB; u "Sorting entries by year...";
            u "ERROR in writing the HTML file: " ++ cause].
    unfold print, set_file; cbn [fst console]. rewrite <- !app_assoc. split; [reflexivity|].
    intros [H|[H|[H|[]]]]; vm_compute in H; discriminate. }
  destruct (write_error env) as [[n cause]|].
  - exists [reading_message INPUT_BIB; u "Sorting entries by year...";
            u "ERROR in writing the HTML file: " ++ cause].
    unfold print, set_file; cbn [fst console]. rewrite <- !app_assoc.
    split; [reflexivity|].
    intros [H|[H|[H|[]]]]; vm_compute in H; discriminate.
  - exists [reading_message INPUT_BIB; u "Sorting entries by year...";
            success_message output_file].
    unfold print, set_file; cbn [fst console]. rewrite <- !app_assoc.
    split; [reflexivity|].
    intros [H|[H|[H|[]]]]; vm_compute in H; discriminate.
Qed.

Lemma run_convert_fst (lower : pystr -> pystr) (env : Env) (w : World) :
  fst (run_convert lower env w)
  = fst (convert_bib_to_html lower env INPUT_BIB OUTPUT_HTML w).
Proof.
  unfold run_convert.
  destruct (convert_bib_to_html lower env INPUT_BIB OUTPUT_HTML w) as [w' [|x]];
    reflexivity.
Qed.

(** X11. Run as a program, the script never prints the not-found message:
    it writes the example file when the input is missing, so the
    conversion always finds its input; whatever it prints comes after what
    was on the console. *)
Theorem main_never_reports_not_found (lower : pystr -> pystr) (boot : Boot)
    (env : Env) (w : World) :
  exists msgs,
    console (fst (main lower boot env w)) = console w ++ msgs
    /\ ~ In (not_found_message INPUT_BIB) msgs.
Proof.
  unfold main. destruct (files w !! INPUT_BIB) as [text|] eqn:Hfile.
  - rewrite run_convert_fst. eapply convert_console_found. eassumption.
  - destruct (boot_open_error boot) as [cause|].
    { exists []. cbn [fst]. rewrite app_nil_r. split; [reflexivity|intros []]. }
    destruct (boot_write_error boot) as [[n cause]|].
    { exists []. cbn [fst set_file console]. rewrite app_nil_r.
      split; [reflexivity|intros []]. }
    cbv zeta. rewrite run_convert_fst.
    destruct (convert_console_found lower env OUTPUT_HTML
                (print bootstrap_message
                   (set_file INPUT_BIB (strip example_bib_content)
                      (set_file INPUT_BIB [] w)))
                (strip example_bib_content)) as (msgs & Hc & Hn).
    { cbn [print set_file files]. apply lookup_insert_eq. }
    exists (bootstrap_message :: msgs). rewrite Hc.
    cbn [print set_file console]. rewrite <- app_assoc.
    split; [reflexivity|].
    intros [H|H]; [vm_compute in H; discriminate|contradiction].
Qed.

(** X12. When writing the example file does not fail, the input file after
    the run is the one that was there, or, if there was none, the example
    with its surrounding blank lines trimmed, which starts at the first
    record. *)
Theorem main_input_file (lower : pystr -> pystr) (boot : Boot) (env : Env)
    (w : World) :
  boot_open_error boot = None ->
  boot_write_error boot = None ->
  files (fst (main lower boot env w)) !! INPUT_BIB
  = Some (match files w !! INPUT_BIB with
          | Some text => text
          | None => strip example_bib_content
          end)
  /\ startswith (u "@inproceedings{krizhevsky2012imagenet,")
       (strip example_bib_content) = true
  /\ endswith (u "doi={10.1109/5.726791}" ++ nl ++ u "}")
       (strip example_bib_content) = true.
Proof.
  intros Ho Hw. split; [|split; vm_compute; reflexivity].
  unfold main. destruct (files w !! INPUT_BIB) as [text|] eqn:Hfile.
  - rewrite run_convert_fst, convert_other_files by (vm_compute; discriminate).
    assumption.
  - rewrite Ho, Hw. cbv zeta.
    rewrite run_convert_fst, convert_other_files by (vm_compute; discriminate).
    cbn [print set_file files]. apply lookup_insert_eq.
Qed.

Lemma main_input_file_witness :
  files (fst (main ascii_lower boot_ok (env_ok [three_authors])
                world_without_input)) !! INPUT_BIB
  = Some (strip example_bib_content).
Proof.
  destruct (main_input_file ascii_lower boot_ok (env_ok [three_authors])
              world_without_input) as [H _]; [reflexivity|reflexivity|].
  exact H.
Defined.

(** ** Stability *)

Section Stable.

Context {A K : Type} `{EqDecision K}.
Variable lt : K -> K -> bool.
Variable f : A -> K.
Hypothesis lt_irrefl : forall a, lt a a = false.

Lemma insert_by_with_key (k : K) (x : A) (l : list A) :
  with_key f k (insert_by lt f x l) = with_key f k (x :: l).
Proof.
  unfold with_key. induction l as [|y r IH]; [reflexivity|].
  cbn [insert_by]. destruct (lt (f y) (f x)) eqn:Hyx; [|reflexivity].
  cbn [List.filter] in *. rewrite IH.
  case_bool_decide as Hy; case_bool_decide as Hx; try reflexivity.
  subst k. rewrite Hx, lt_irrefl in Hyx. discriminate.
Qed.

Lemma sort_by_with_key (k : K) (l : list A) :
  with_key f k (sort_by lt f l) = with_key f k l.
Proof.
  induction l as [|x r IH]; [reflexivity|].
  change (sort_by lt f (x :: r)) with (insert_by lt f x (sort_by lt f r)).
  rewrite insert_by_with_key. unfold with_key in *. cbn [List.filter].
  rewrite IH. reflexivity.
Qed.

End Stable.

Lemma pair_lt_irrefl (a : pystr * pystr) : pair_lt a a = false.
Proof.
  unfold pair_lt. rewrite bool_decide_eq_true_2 by reflexivity.
  apply str_lt_irrefl.
Qed.

(** X13. The sort is stable: the records that share a year and a surname
    key come out in the order they came in. *)
Theorem sort_entries_stable (lower : pystr -> pystr) (l l' : list entry)
    (k : pystr * pystr) :
  sort_entries lower l = Ok l' ->
  with_key (sort_key lower) k l' = with_key (sort_key lower) k l.
Proof.
  intros H. destruct (sort_entries_ok lower l l' H) as [-> _].
  apply sort_by_with_key. apply pair_lt_irrefl.
Qed.

(** Two records by Ann in 1998, with another record between them. *)
Lemma sort_entries_stable_witness :
  with_key (sort_key ascii_lower) (u "1998", u "ann")
    [lee_1990; ann_1998_b; ann_1998_a]
  = with_key (sort_key ascii_lower) (u "1998", u "ann")
      [ann_1998_b; lee_1990; ann_1998_a].
Proof.
  apply (sort_entries_stable ascii_lower [ann_1998_b; lee_1990; ann_1998_a]).
  vm_compute. reflexivity.
Defined.
